(** * A to-do list manager: browser-storage variant and REST variant

    Shallow embedding of the two client programs of the repository and the
    properties of their state store and view renderer.

    - [JS]      the platform built-ins the programs call: strings as
                sequences of UTF-16 code units, [String.prototype.trim],
                [Number::toString] on integers, exceptions, JSON values,
                [QuoteJSONString] and [JSON.parse].
    - [DOM]     the part of the document the programs write.
    - [Local]   the browser-storage program ([todos], [load], [save],
                [addTodo], [toggleTodo], [deleteTodo], [clearCompleted],
                [renderCounts], [render]).
    - [Remote]  the REST program ([api], [fetchTodos] and the same
                operations), against an arbitrary server.
    - [Sample]  small collections and a small server, for worked cases. *)

From Stdlib Require Import List ZArith NArith Lia Bool String Ascii.
From Stdlib Require Import DecimalFacts DecimalPos DecimalN.
Import ListNotations.

Set Implicit Arguments.
Set Warnings "-register-all".

(* ================================================================== *)
(** * Platform built-ins *)
(* ================================================================== *)

Module JS.

Local Open Scope N_scope.

(** A JavaScript string is a finite sequence of UTF-16 code units. *)
Definition codeunit := N.
Definition jsstring := list codeunit.

(** ASCII literals of the source text. *)
Definition lit (s : string) : jsstring :=
  map N_of_ascii (list_ascii_of_string s).

(** [===] on two strings. *)
Fixpoint str_eqb (a b : jsstring) : bool :=
  match a, b with
  | [], [] => true
  | x :: a', y :: b' => (x =? y) && str_eqb a' b'
  | _, _ => false
  end.

(** ToBoolean on a string: only the empty string is falsy. *)
Definition truthy (s : jsstring) : bool :=
  match s with [] => false | _ :: _ => true end.

(** ** String.prototype.trim

    The code units removed are those of WhiteSpace (TAB, VT, FF, ZWNBSP and
    the Space_Separator category) and LineTerminator (LF, CR, LS, PS). *)
Definition isWhiteSpace (c : codeunit) : bool :=
  (c =? 0x09) || (c =? 0x0A) || (c =? 0x0B) || (c =? 0x0C) || (c =? 0x0D)
  || (c =? 0x20) || (c =? 0xA0) || (c =? 0x1680)
  || ((0x2000 <=? c) && (c <=? 0x200A))
  || (c =? 0x2028) || (c =? 0x2029) || (c =? 0x202F) || (c =? 0x205F)
  || (c =? 0x3000) || (c =? 0xFEFF).

Fixpoint trimStart (s : jsstring) : jsstring :=
  match s with
  | [] => []
  | c :: s' => if isWhiteSpace c then trimStart s' else s
  end.

Definition trimEnd (s : jsstring) : jsstring := rev (trimStart (rev s)).

Definition trim (s : jsstring) : jsstring := trimEnd (trimStart s).

(** ** Number::toString on integers

    An integer of magnitude below 10^21 prints as its decimal digits, with a
    leading minus sign when negative. *)
Definition digit_char (d : N) : codeunit := 0x30 + d.

Fixpoint uint_chars (d : Decimal.uint) : jsstring :=
  match d with
  | Decimal.Nil => []
  | Decimal.D0 d' => digit_char 0 :: uint_chars d'
  | Decimal.D1 d' => digit_char 1 :: uint_chars d'
  | Decimal.D2 d' => digit_char 2 :: uint_chars d'
  | Decimal.D3 d' => digit_char 3 :: uint_chars d'
  | Decimal.D4 d' => digit_char 4 :: uint_chars d'
  | Decimal.D5 d' => digit_char 5 :: uint_chars d'
  | Decimal.D6 d' => digit_char 6 :: uint_chars d'
  | Decimal.D7 d' => digit_char 7 :: uint_chars d'
  | Decimal.D8 d' => digit_char 8 :: uint_chars d'
  | Decimal.D9 d' => digit_char 9 :: uint_chars d'
  end.

Definition N_toString (n : N) : jsstring := uint_chars (N.to_uint n).

Definition Number_toString (z : Z) : jsstring :=
  match z with
  | Z0 => N_toString 0
  | Zpos p => N_toString (Npos p)
  | Zneg p => 0x2D :: N_toString (Npos p)
  end.

(** ** Exceptions

    A call either returns a value or throws. *)
Inductive exn :=
| SyntaxError
| TypeError
| SecurityError
| QuotaExceededError
| Error (message : jsstring).

Inductive completion (A : Type) :=
| Normal (a : A)
| Throw (e : exn).
Arguments Normal {A} a.
Arguments Throw {A} e.

Definition bind {A B} (c : completion A) (k : A -> completion B)
  : completion B :=
  match c with
  | Normal a => k a
  | Throw e => Throw e
  end.

(** [try { body } catch { handler }] *)
Definition try_catch {A} (body : completion A) (handler : completion A)
  : completion A :=
  match body with
  | Normal a => Normal a
  | Throw _ => handler
  end.

(** ** JSON values

    A number keeps its decimal reading [(-1)^neg * man * 10^exp]; the
    engine rounds it to the nearest double, which changes nothing for an
    integer of magnitude up to 2^53.  An object lists its own properties in
    property order. *)
Inductive json :=
| JNull
| JBool (b : bool)
| JNum (neg : bool) (man : N) (exp : Z)
| JStr (s : jsstring)
| JArr (elems : list json)
| JObj (props : list (jsstring * json)).

Definition JInt (z : Z) : json := JNum (z <? 0)%Z (Z.abs_N z) 0.

(** Property read [o.k] on an object. *)
Fixpoint get_prop (o : list (jsstring * json)) (k : jsstring) : option json :=
  match o with
  | [] => None
  | (k', v) :: o' => if str_eqb k' k then Some v else get_prop o' k
  end.

Definition is_digit (c : codeunit) : bool := (0x30 <=? c) && (c <=? 0x39).

(** The number a run of decimal digits denotes. *)
Definition read_decimal (s : jsstring) : N :=
  fold_left (fun a d => a * 10 + (d - 0x30)) s 0.

(** A property key that is an array index (a canonical numeric string
    below 2^32 - 1) is enumerated before the other keys, in numeric order. *)
Definition array_index (k : jsstring) : option N :=
  match k with
  | [] => None
  | c :: k' =>
      if forallb is_digit k then
        if (c =? 0x30) && truthy k' then None
        else
          let v := read_decimal k in
          if v <=? 4294967294 then Some v else None
      else None
  end.

Fixpoint has_prop (o : list (jsstring * json)) (k : jsstring) : bool :=
  match o with
  | [] => false
  | (k', _) :: o' => str_eqb k' k || has_prop o' k
  end.

Fixpoint replace_prop (o : list (jsstring * json)) (k : jsstring) (v : json)
  : list (jsstring * json) :=
  match o with
  | [] => []
  | (k', v') :: o' =>
      if str_eqb k' k then (k', v) :: o' else (k', v') :: replace_prop o' k v
  end.

Fixpoint insert_index (i : N) (k : jsstring) (v : json)
  (o : list (jsstring * json)) : list (jsstring * json) :=
  match o with
  | [] => [(k, v)]
  | (k', v') :: o' =>
      match array_index k' with
      | Some j =>
          if j <? i then (k', v') :: insert_index i k v o'
          else (k, v) :: o
      | None => (k, v) :: o
      end
  end.

(** CreateDataProperty: a key already present keeps its place and takes the
    new value. *)
Definition set_prop (o : list (jsstring * json)) (k : jsstring) (v : json)
  : list (jsstring * json) :=
  if has_prop o k then replace_prop o k v
  else
    match array_index k with
    | Some i => insert_index i k v o
    | None => o ++ [(k, v)]
    end.

(** ** JSON.stringify: QuoteJSONString *)
Definition hex_char (d : N) : codeunit :=
  if d <? 10 then 0x30 + d else 0x57 + d.

(** UnicodeEscape: backslash, u, four lowercase hexadecimal digits. *)
Definition UnicodeEscape (c : codeunit) : jsstring :=
  [0x5C; 0x75;
   hex_char ((c / 4096) mod 16); hex_char ((c / 256) mod 16);
   hex_char ((c / 16) mod 16); hex_char (c mod 16)].

Definition is_lead (c : codeunit) : bool := (0xD800 <=? c) && (c <=? 0xDBFF).
Definition is_trail (c : codeunit) : bool := (0xDC00 <=? c) && (c <=? 0xDFFF).

(** The two-character escapes of the table in QuoteJSONString. *)
Definition short_escape (c : codeunit) : option codeunit :=
  if c =? 0x08 then Some 0x62        (* b *)
  else if c =? 0x09 then Some 0x74   (* t *)
  else if c =? 0x0A then Some 0x6E   (* n *)
  else if c =? 0x0C then Some 0x66   (* f *)
  else if c =? 0x0D then Some 0x72   (* r *)
  else if c =? 0x22 then Some 0x22   (* quotation mark *)
  else if c =? 0x5C then Some 0x5C   (* backslash *)
  else None.

(** The string is read code point by code point: a lead surrogate followed
    by a trail surrogate is one code point and is copied; a surrogate on
    its own is escaped. *)
Fixpoint quote_body (s : jsstring) : jsstring :=
  match s with
  | [] => []
  | c :: s' =>
      match short_escape c with
      | Some e => 0x5C :: e :: quote_body s'
      | None =>
          if c <? 0x20 then UnicodeEscape c ++ quote_body s'
          else if is_lead c then
            match s' with
            | t :: s'' =>
                if is_trail t then c :: t :: quote_body s''
                else UnicodeEscape c ++ quote_body s'
            | [] => UnicodeEscape c
            end
          else if is_trail c then UnicodeEscape c ++ quote_body s'
          else c :: quote_body s'
      end
  end.

Definition QuoteJSONString (s : jsstring) : jsstring :=
  0x22 :: quote_body s ++ [0x22].

(** ** JSON.parse: tokens *)
Inductive token :=
| TLBrace | TRBrace | TLBrack | TRBrack | TColon | TComma
| TStr (s : jsstring)
| TNum (neg : bool) (man : N) (exp : Z)
| TTrue | TFalse | TNull.

Inductive numphase :=
| NMinus | NZero | NInt | NDot | NFrac | NE | NESign | NExp.

(** Where the scanner is: between tokens, inside a literal name, inside a
    string (the code units read so far are kept newest first), after a
    backslash, inside the four digits of a \u escape, or inside a number. *)
Inductive lmode :=
| LDefault
| LLit (rest : jsstring) (tok : token)
| LStr (acc : jsstring)
| LEsc (acc : jsstring)
| LHex (acc : jsstring) (remaining : nat) (v : N)
| LNum (ph : numphase) (neg : bool) (man : N) (exp : Z) (eneg : bool) (e : N).

Definition hex_value (c : codeunit) : option N :=
  if is_digit c then Some (c - 0x30)
  else if (0x61 <=? c) && (c <=? 0x66) then Some (c - 0x57)
  else if (0x41 <=? c) && (c <=? 0x46) then Some (c - 0x37)
  else None.

Definition lex_start (c : codeunit) : option (list token * lmode) :=
  if (c =? 0x20) || (c =? 0x09) || (c =? 0x0A) || (c =? 0x0D)
  then Some ([], LDefault)
  else if c =? 0x7B then Some ([TLBrace], LDefault)
  else if c =? 0x7D then Some ([TRBrace], LDefault)
  else if c =? 0x5B then Some ([TLBrack], LDefault)
  else if c =? 0x5D then Some ([TRBrack], LDefault)
  else if c =? 0x3A then Some ([TColon], LDefault)
  else if c =? 0x2C then Some ([TComma], LDefault)
  else if c =? 0x22 then Some ([], LStr [])
  else if c =? 0x2D then Some ([], LNum NMinus true 0 0 false 0)
  else if c =? 0x30 then Some ([], LNum NZero false 0 0 false 0)
  else if is_digit c then Some ([], LNum NInt false (c - 0x30) 0 false 0)
  else if c =? 0x74 then Some ([], LLit (lit "rue") TTrue)
  else if c =? 0x66 then Some ([], LLit (lit "alse") TFalse)
  else if c =? 0x6E then Some ([], LLit (lit "ull") TNull)
  else None.

Definition num_token (neg : bool) (man : N) (exp : Z) (eneg : bool) (e : N)
  : token :=
  TNum neg man (exp + (if eneg then - Z.of_N e else Z.of_N e))%Z.

(** The number is over: its token is produced and [c] starts afresh. *)
Definition end_number (neg : bool) (man : N) (exp : Z) (eneg : bool) (e : N)
  (c : codeunit) : option (list token * lmode) :=
  match lex_start c with
  | Some (ts, m) => Some (num_token neg man exp eneg e :: ts, m)
  | None => None
  end.

Definition is_e (c : codeunit) : bool := (c =? 0x65) || (c =? 0x45).

Definition lex_number (ph : numphase) (neg : bool) (man : N) (exp : Z)
  (eneg : bool) (e : N) (c : codeunit) : option (list token * lmode) :=
  let d := c - 0x30 in
  match ph with
  | NMinus =>
      if c =? 0x30 then Some ([], LNum NZero neg 0 exp eneg e)
      else if is_digit c then Some ([], LNum NInt neg d exp eneg e)
      else None
  | NZero =>
      if c =? 0x2E then Some ([], LNum NDot neg man exp eneg e)
      else if is_e c then Some ([], LNum NE neg man exp eneg e)
      else end_number neg man exp eneg e c
  | NInt =>
      if is_digit c then Some ([], LNum NInt neg (man * 10 + d) exp eneg e)
      else if c =? 0x2E then Some ([], LNum NDot neg man exp eneg e)
      else if is_e c then Some ([], LNum NE neg man exp eneg e)
      else end_number neg man exp eneg e c
  | NDot =>
      if is_digit c
      then Some ([], LNum NFrac neg (man * 10 + d) (exp - 1)%Z eneg e)
      else None
  | NFrac =>
      if is_digit c
      then Some ([], LNum NFrac neg (man * 10 + d) (exp - 1)%Z eneg e)
      else if is_e c then Some ([], LNum NE neg man exp eneg e)
      else end_number neg man exp eneg e c
  | NE =>
      if c =? 0x2B then Some ([], LNum NESign neg man exp false e)
      else if c =? 0x2D then Some ([], LNum NESign neg man exp true e)
      else if is_digit c then Some ([], LNum NExp neg man exp eneg d)
      else None
  | NESign =>
      if is_digit c then Some ([], LNum NExp neg man exp eneg d) else None
  | NExp =>
      if is_digit c then Some ([], LNum NExp neg man exp eneg (e * 10 + d))
      else end_number neg man exp eneg e c
  end.

Definition lex_escape (acc : jsstring) (c : codeunit)
  : option (list token * lmode) :=
  if c =? 0x22 then Some ([], LStr (0x22 :: acc))
  else if c =? 0x5C then Some ([], LStr (0x5C :: acc))
  else if c =? 0x2F then Some ([], LStr (0x2F :: acc))
  else if c =? 0x62 then Some ([], LStr (0x08 :: acc))
  else if c =? 0x66 then Some ([], LStr (0x0C :: acc))
  else if c =? 0x6E then Some ([], LStr (0x0A :: acc))
  else if c =? 0x72 then Some ([], LStr (0x0D :: acc))
  else if c =? 0x74 then Some ([], LStr (0x09 :: acc))
  else if c =? 0x75 then Some ([], LHex acc 4 0)
  else None.

Definition lex_step (m : lmode) (c : codeunit)
  : option (list token * lmode) :=
  match m with
  | LDefault => lex_start c
  | LLit rest tok =>
      match rest with
      | [] =>
          match lex_start c with
          | Some (ts, m') => Some (tok :: ts, m')
          | None => None
          end
      | x :: rest' => if c =? x then Some ([], LLit rest' tok) else None
      end
  | LStr acc =>
      if c =? 0x22 then Some ([TStr (rev acc)], LDefault)
      else if c =? 0x5C then Some ([], LEsc acc)
      else if c <? 0x20 then None
      else Some ([], LStr (c :: acc))
  | LEsc acc => lex_escape acc c
  | LHex acc k v =>
      match hex_value c with
      | None => None
      | Some h =>
          match k with
          | O => None
          | S O => Some ([], LStr ((v * 16 + h) :: acc))
          | S k' => Some ([], LHex acc k' (v * 16 + h))
          end
      end
  | LNum ph neg man exp eneg e => lex_number ph neg man exp eneg e c
  end.

(** What the end of the text means in each mode. *)
Definition lex_end (m : lmode) : option (list token) :=
  match m with
  | LDefault => Some []
  | LLit [] tok => Some [tok]
  | LNum NZero neg man exp eneg e
  | LNum NInt neg man exp eneg e
  | LNum NFrac neg man exp eneg e
  | LNum NExp neg man exp eneg e => Some [num_token neg man exp eneg e]
  | _ => None
  end.

(** The scanner over a stretch of text: the tokens completed in it and the
    mode it ends in. *)
Fixpoint scan (m : lmode) (s : jsstring) : option (list token * lmode) :=
  match s with
  | [] => Some ([], m)
  | c :: s' =>
      match lex_step m c with
      | None => None
      | Some (ts, m') =>
          match scan m' s' with
          | None => None
          | Some (ts', m'') => Some (ts ++ ts', m'')
          end
      end
  end.

(** The tokens of a whole text. *)
Definition lex (s : jsstring) : option (list token) :=
  match scan LDefault s with
  | None => None
  | Some (ts, m) =>
      match lex_end m with
      | None => None
      | Some te => Some (ts ++ te)
      end
  end.

(** ** JSON.parse: the grammar, as a machine over the tokens

    The stack holds the containers that are still open: an array with its
    elements so far (newest first), an object between members, an object
    whose current member has its key and awaits its value. *)
Inductive frame :=
| FArr (acc : list json)
| FObj (acc : list (jsstring * json))
| FKey (acc : list (jsstring * json)) (k : jsstring).

Inductive pmode :=
| PValue      (* a value must come *)
| PFirst      (* just after [: a value or ] *)
| PKeyFirst   (* just after {: a key or } *)
| PKey        (* after a comma in an object: a key *)
| PColon      (* after a key *)
| PAfter      (* after a value inside a container: a comma or the end *)
| PDone (v : json).

Definition pstate := (pmode * list frame)%type.

(** A complete value goes to the innermost open container. *)
Definition deliver (v : json) (st : list frame) : option pstate :=
  match st with
  | [] => Some (PDone v, [])
  | FArr acc :: st' => Some (PAfter, FArr (v :: acc) :: st')
  | FKey acc k :: st' => Some (PAfter, FObj (set_prop acc k v) :: st')
  | FObj _ :: _ => None
  end.

Definition parse_value (t : token) (st : list frame) : option pstate :=
  match t with
  | TNull => deliver JNull st
  | TTrue => deliver (JBool true) st
  | TFalse => deliver (JBool false) st
  | TNum neg man exp => deliver (JNum neg man exp) st
  | TStr s => deliver (JStr s) st
  | TLBrack => Some (PFirst, FArr [] :: st)
  | TLBrace => Some (PKeyFirst, FObj [] :: st)
  | _ => None
  end.

Definition parse_key (t : token) (st : list frame) : option pstate :=
  match t, st with
  | TStr k, FObj acc :: st' => Some (PColon, FKey acc k :: st')
  | _, _ => None
  end.

Definition parse_step (ps : pstate) (t : token) : option pstate :=
  let (m, st) := ps in
  match m with
  | PValue => parse_value t st
  | PFirst =>
      match t, st with
      | TRBrack, FArr _ :: st' => deliver (JArr []) st'
      | _, _ => parse_value t st
      end
  | PKeyFirst =>
      match t, st with
      | TRBrace, FObj acc :: st' => deliver (JObj acc) st'
      | _, _ => parse_key t st
      end
  | PKey => parse_key t st
  | PColon =>
      match t with
      | TColon => Some (PValue, st)
      | _ => None
      end
  | PAfter =>
      match st, t with
      | FArr acc :: st', TComma => Some (PValue, st)
      | FArr acc :: st', TRBrack => deliver (JArr (rev acc)) st'
      | FObj acc :: st', TComma => Some (PKey, st)
      | FObj acc :: st', TRBrace => deliver (JObj acc) st'
      | _, _ => None
      end
  | PDone _ => None
  end.

Fixpoint parse_run (ps : pstate) (ts : list token) : option pstate :=
  match ts with
  | [] => Some ps
  | t :: ts' =>
      match parse_step ps t with
      | None => None
      | Some ps' => parse_run ps' ts'
      end
  end.

(** [JSON.parse(text)]: the value, or a SyntaxError. *)
Definition JSON_parse (text : jsstring) : completion json :=
  match lex text with
  | None => Throw SyntaxError
  | Some ts =>
      match parse_run (PValue, []) ts with
      | Some (PDone v, _) => Normal v
      | _ => Throw SyntaxError
      end
  end.


End JS.

(* ================================================================== *)
(** * The document *)
(* ================================================================== *)

Module DOM.

Import JS.

(** The part of the document the programs write: the rows of the list
    ([li.className], [li.dataset.id], [checkbox.checked],
    [text.textContent]), the style of the empty-state placeholder and the
    text of the counter. *)
Record row := mkRow {
  className : jsstring;
  dataset_id : jsstring;
  checked : bool;
  textContent : jsstring
}.

Inductive display := Block | Hidden.

Record dom := mkDom {
  list_rows : list row;
  empty_display : display;
  count_text : jsstring
}.

(** [`${active} ${active === 1 ? 'item' : 'items'}`] *)
Definition count_template (n : nat) : jsstring :=
  N_toString (N.of_nat n) ++ lit " "
  ++ (if Nat.eqb n 1 then lit "item" else lit "items").

End DOM.

(* ================================================================== *)
(** * The browser-storage program *)
(* ================================================================== *)

Module Local.

Import JS DOM.

Definition STORAGE_KEY : jsstring := lit "todos:v1".

(** A task item, as [addTodo] creates it:
    [{ id, text, completed, createdAt }].  [createdAt] is a time value, the
    integer number of milliseconds [Date.now()] returns. *)
Record todo := mkTodo {
  id : jsstring;
  text : jsstring;
  completed : bool;
  createdAt : Z
}.

(** The range of time values: 8.64e15 milliseconds either side of the
    epoch. *)
Definition is_time_value (z : Z) : Prop :=
  (- 8640000000000000 <= z <= 8640000000000000)%Z.

(** What the program does to the outside: writes to the store and full
    redraws of the list. *)
Inductive effect :=
| SetItem (key value : jsstring)
| Render.

(** [todos] is the module-level variable; [storage] is the entry of
    [localStorage] under [STORAGE_KEY]; [trace] lists the effects so far,
    oldest first. *)
Record state := mkState {
  todos : list todo;
  storage : option jsstring;
  view : dom;
  trace : list effect
}.

Definition initial : state :=
  mkState [] None (mkDom [] Hidden []) [].

Definition set_todos (l : list todo) (st : state) : state :=
  mkState l (storage st) (view st) (trace st).

(** *** JSON.stringify(todos)

    SerializeJSONArray over SerializeJSONObject, without indentation: the
    properties of an item in creation order, strings through
    QuoteJSONString, the timestamp through Number::toString. *)
Definition stringify_todo (t : todo) : jsstring :=
  lit "{" ++ QuoteJSONString (lit "id") ++ lit ":" ++ QuoteJSONString (id t)
  ++ lit "," ++ QuoteJSONString (lit "text") ++ lit ":"
  ++ QuoteJSONString (text t)
  ++ lit "," ++ QuoteJSONString (lit "completed") ++ lit ":"
  ++ (if completed t then lit "true" else lit "false")
  ++ lit "," ++ QuoteJSONString (lit "createdAt") ++ lit ":"
  ++ Number_toString (createdAt t) ++ lit "}".

Fixpoint join_items (l : list todo) : jsstring :=
  match l with
  | [] => []
  | [t] => stringify_todo t
  | t :: l' => stringify_todo t ++ lit "," ++ join_items l'
  end.

Definition JSON_stringify (l : list todo) : jsstring :=
  lit "[" ++ join_items l ++ lit "]".

(** The tokens of the text [JSON.stringify(todos)] produces. *)
Definition todo_tokens (t : todo) : list token :=
  [TLBrace; TStr (lit "id"); TColon; TStr (id t); TComma;
   TStr (lit "text"); TColon; TStr (text t); TComma;
   TStr (lit "completed"); TColon;
   (if completed t then TTrue else TFalse); TComma;
   TStr (lit "createdAt"); TColon;
   TNum (createdAt t <? 0)%Z (Z.abs_N (createdAt t)) 0; TRBrace].

Fixpoint items_tokens (l : list todo) : list token :=
  match l with
  | [] => []
  | [t] => todo_tokens t
  | t :: l' => todo_tokens t ++ TComma :: items_tokens l'
  end.

(** The JavaScript value a task item is, and the array a collection is. *)
Definition todo_to_json (t : todo) : json :=
  JObj [(lit "id", JStr (id t)); (lit "text", JStr (text t));
        (lit "completed", JBool (completed t));
        (lit "createdAt", JInt (createdAt t))].

Definition todos_to_json (l : list todo) : json :=
  JArr (map todo_to_json l).

(** *** load (lines 14-21)

    [read] is what [localStorage.getItem(STORAGE_KEY)] does: it returns the
    stored string, or null when there is none, or throws when the store
    cannot be read.  The result is the value assigned to [todos]. *)
Definition load (read : completion (option jsstring)) : completion json :=
  try_catch
    (bind read (fun raw =>
       match raw with
       | Some s => if truthy s then JSON_parse s else Normal (JArr [])
       | None => Normal (JArr [])
       end))
    (Normal (JArr [])).

Definition getItem (st : state) : completion (option jsstring) :=
  Normal (storage st).

(** *** save (lines 23-25)

    The write on a store that accepts it.  [localStorage.setItem] can
    throw, and the program has no handler for that: the operations on a
    store that may refuse the write are those of [LocalQuota] below, which
    are these when the store accepts. *)
Definition save (st : state) : state :=
  let value := JSON_stringify (todos st) in
  mkState (todos st) (Some value) (view st)
          (trace st ++ [SetItem STORAGE_KEY value]).

(** *** renderCounts (lines 63-66) *)
Definition active (l : list todo) : nat :=
  List.length (filter (fun t => negb (completed t)) l).

Definition count_label (l : list todo) : jsstring :=
  count_template (active l).

Definition renderCounts (st : state) : state :=
  mkState (todos st) (storage st)
          (mkDom (list_rows (view st)) (empty_display (view st))
                 (count_label (todos st)))
          (trace st).

(** *** render (lines 68-113) *)
Definition render_row (t : todo) : row :=
  mkRow (lit "todo-item" ++ (if completed t then lit " completed" else []))
        (id t) (completed t) (text t).

Definition render (st : state) : state :=
  let rows := map render_row (todos st) in
  let shown := match todos st with [] => Block | _ :: _ => Hidden end in
  renderCounts
    (mkState (todos st) (storage st)
             (mkDom rows shown (count_text (view st)))
             (trace st ++ [Render])).

(** *** addTodo (lines 31-37)

    [fresh] is the string [nextId()] returns and [now] the value of
    [Date.now()] read for [createdAt]. *)
Definition addTodo (fresh : jsstring) (now : Z) (txt : jsstring) (st : state)
  : state :=
  let t := trim txt in
  if negb (truthy t) then st
  else render (save (set_todos (mkTodo fresh t false now :: todos st) st)).

(** *** toggleTodo (lines 39-46)

    [find] returns the first item whose id is [i]; the assignment changes
    that very element of the array. *)
Fixpoint assign_completed (i : jsstring) (c : bool) (l : list todo)
  : list todo :=
  match l with
  | [] => []
  | x :: l' =>
      if str_eqb (id x) i then mkTodo (id x) (text x) c (createdAt x) :: l'
      else x :: assign_completed i c l'
  end.

Definition toggleTodo (i : jsstring) (c : bool) (st : state) : state :=
  match find (fun x => str_eqb (id x) i) (todos st) with
  | Some _ => render (save (set_todos (assign_completed i c (todos st)) st))
  | None => st
  end.

(** *** deleteTodo (lines 48-52) *)
Definition deleteTodo (i : jsstring) (st : state) : state :=
  render (save (set_todos
    (filter (fun x => negb (str_eqb (id x) i)) (todos st)) st)).

(** *** clearCompleted (lines 54-61) *)
Definition clearCompleted (st : state) : state :=
  let before := List.length (todos st) in
  let st' := set_todos (filter (fun x => negb (completed x)) (todos st)) st in
  if negb (Nat.eqb (List.length (todos st')) before) then render (save st')
  else st'.

(** *** The order of the collection

    [order_kept old new]: [new] is [old] with some items removed and some
    completion flags changed, nothing moved. *)
Definition same_item (x y : todo) : Prop :=
  id x = id y /\ text x = text y /\ createdAt x = createdAt y.

Inductive order_kept : list todo -> list todo -> Prop :=
| kept_nil : order_kept [] []
| kept_keep x y l l' :
    same_item x y -> order_kept l l' -> order_kept (x :: l) (y :: l')
| kept_drop x l l' : order_kept l l' -> order_kept (x :: l) l'.

(** *** The collection a loaded value is

    [load] assigns whatever [JSON.parse] returned.  The operations above
    are those of the program on an array of task items as [addTodo] builds
    them; [todos_of_json] recognises such an array in the form [save]
    writes it, and no other value: an array whose items have other
    properties, the properties in another order, or a [createdAt] written
    with a fraction or an exponent is not recognised, although the program
    would go on with it.  The program itself stores time values only. *)
Definition todo_of_json (v : json) : option todo :=
  match v with
  | JObj [(k1, JStr i); (k2, JStr x); (k3, JBool c); (k4, JNum neg man e)] =>
      if str_eqb k1 (lit "id") && str_eqb k2 (lit "text")
         && str_eqb k3 (lit "completed") && str_eqb k4 (lit "createdAt")
         && (e =? 0)%Z && (negb neg || negb (man =? 0)%N)
      then Some (mkTodo i x c (if neg then - Z.of_N man else Z.of_N man)%Z)
      else None
  | _ => None
  end.

Fixpoint items_of_json (vs : list json) : option (list todo) :=
  match vs with
  | [] => Some []
  | v :: vs' =>
      match todo_of_json v, items_of_json vs' with
      | Some t, Some l => Some (t :: l)
      | _, _ => None
      end
  end.

Definition todos_of_json (v : json) : option (list todo) :=
  match v with
  | JArr vs => items_of_json vs
  | _ => None
  end.

(** *** init (lines 122-128)

    [load(); render();] and the two listeners.  [None] does not stand for
    a failure of the program: the store holds a value that parses to
    something else than an array of task items in the form [save] writes
    them, the only values the program itself stores, and what the program
    does on such a value is not covered.  The statements below are about
    the cases where [init] gives [Some]. *)
Definition init (st : state) : option state :=
  match load (getItem st) with
  | Normal v =>
      match todos_of_json v with
      | Some l => Some (render (set_todos l st))
      | None => None
      end
  | Throw _ => None
  end.

(** *** The listeners of a row (lines 85 and 103)

    The listeners of the row at place [n] of the list drawn last:
    [toggleTodo(t.id, checkbox.checked)], where [now_checked] is the state
    of the checkbox when the event fires, and [deleteTodo(t.id)].  The row
    carries [t.id] as [dataset.id]. *)
Definition checkbox_change (n : nat) (now_checked : bool) (st : state)
  : state :=
  match nth_error (list_rows (view st)) n with
  | Some r => toggleTodo (dataset_id r) now_checked st
  | None => st
  end.

Definition delete_click (n : nat) (st : state) : state :=
  match nth_error (list_rows (view st)) n with
  | Some r => deleteTodo (dataset_id r) st
  | None => st
  end.

(** *** The text field of the form (used by onSubmit, lines 115-120): its
    value and whether it has the focus. *)
Record form := mkForm {
  input_value : jsstring;
  input_focused : bool
}.

(** *** Runs of the program

    What the user can make the program do after [init], one event after
    the other. *)
Inductive event :=
| Add (fresh : jsstring) (now : Z) (txt : jsstring)
| Toggle (i : jsstring) (c : bool)
| Delete (i : jsstring)
| Clear.

Definition handle (e : event) (st : state) : state :=
  match e with
  | Add fresh now txt => addTodo fresh now txt st
  | Toggle i c => toggleTodo i c st
  | Delete i => deleteTodo i st
  | Clear => clearCompleted st
  end.

Fixpoint run (es : list event) (st : state) : state :=
  match es with
  | [] => st
  | e :: es' => run es' (handle e st)
  end.

(** The store and the document agree with [todos]: what is stored loads as
    the collection, the list has one row per item, in order, the
    placeholder shows exactly when there is no item, and the counter is
    that of the collection. *)
Definition in_sync (st : state) : Prop :=
  load (getItem st) = Normal (todos_to_json (todos st))
  /\ list_rows (view st) = map render_row (todos st)
  /\ (empty_display (view st) = Block <-> todos st = [])
  /\ count_text (view st) = count_label (todos st).

(** The text of an item is not empty and has no white space at either
    end. *)
Definition trimmed_text (t : todo) : Prop :=
  text t <> [] /\ trim (text t) = text t.

End Local.

(* ================================================================== *)
(** * The browser-storage program on a store that may refuse a write *)
(* ================================================================== *)

(** [localStorage.setItem] throws when the store refuses the value (the
    quota is exceeded, the storage is disabled); the value stored stays
    the one before.  The program has no handler: the exception leaves the
    operation at [save()], after [todos] was changed and before
    [render()].  [answer] is what the store answers to the write of the
    operation: [None] when it accepts, [Some e] when [setItem] throws [e].
    A write that is refused does not reach the store, and is not listed in
    [trace].  The operations of [Local] are these operations on a store
    that accepts. *)
Module LocalQuota.

Import JS DOM.

Definition M (A : Type) : Type := Local.state -> completion A * Local.state.

Definition andthen (m k : M unit) : M unit :=
  fun st =>
    match m st with
    | (Normal _, st') => k st'
    | (Throw e, st') => (Throw e, st')
    end.

(** [todos = l] and [todos.unshift], the assignments to the variable. *)
Definition assign (l : list Local.todo) : M unit :=
  fun st => (Normal tt, Local.set_todos l st).

(** *** save (lines 23-25) *)
Definition save (answer : option exn) : M unit :=
  fun st =>
    match answer with
    | None => (Normal tt, Local.save st)
    | Some e => (Throw e, st)
    end.

(** *** render (lines 68-113) *)
Definition render : M unit :=
  fun st => (Normal tt, Local.render st).

(** *** addTodo (lines 31-37) *)
Definition addTodo (answer : option exn) (fresh : jsstring) (now : Z)
  (txt : jsstring) : M unit :=
  fun st =>
    let t := trim txt in
    if negb (truthy t) then (Normal tt, st)
    else
      andthen (assign (Local.mkTodo fresh t false now :: Local.todos st))
        (andthen (save answer) render) st.

(** *** toggleTodo (lines 39-46) *)
Definition toggleTodo (answer : option exn) (i : jsstring) (c : bool)
  : M unit :=
  fun st =>
    match find (fun x => str_eqb (Local.id x) i) (Local.todos st) with
    | Some _ =>
        andthen (assign (Local.assign_completed i c (Local.todos st)))
          (andthen (save answer) render) st
    | None => (Normal tt, st)
    end.

(** *** deleteTodo (lines 48-52) *)
Definition deleteTodo (answer : option exn) (i : jsstring) : M unit :=
  fun st =>
    andthen
      (assign (filter (fun x => negb (str_eqb (Local.id x) i))
                      (Local.todos st)))
      (andthen (save answer) render) st.

(** *** clearCompleted (lines 54-61) *)
Definition clearCompleted (answer : option exn) : M unit :=
  fun st =>
    let before := List.length (Local.todos st) in
    andthen
      (assign (filter (fun x => negb (Local.completed x)) (Local.todos st)))
      (fun st' =>
         if negb (Nat.eqb (List.length (Local.todos st')) before)
         then andthen (save answer) render st'
         else (Normal tt, st')) st.

(** *** onSubmit (lines 115-120)

    [addTodo(els.input.value)], then the field is emptied and focused;
    when [addTodo] throws, these two lines are not reached. *)
Definition onSubmit (answer : option exn) (fresh : jsstring) (now : Z)
  (p : Local.form * Local.state)
  : completion unit * (Local.form * Local.state) :=
  let (f, st) := p in
  match addTodo answer fresh now (Local.input_value f) st with
  | (Normal _, st') => (Normal tt, (Local.mkForm [] true, st'))
  | (Throw e, st') => (Throw e, (f, st'))
  end.

(** *** Runs of the program

    Each event comes with the answer of the store to its write.  An
    exception thrown in a listener ends that listener only: the page goes
    on with the next event. *)
Definition handle (answer : option exn) (e : Local.event) : M unit :=
  match e with
  | Local.Add fresh now txt => addTodo answer fresh now txt
  | Local.Toggle i c => toggleTodo answer i c
  | Local.Delete i => deleteTodo answer i
  | Local.Clear => clearCompleted answer
  end.

Fixpoint run (es : list (Local.event * option exn)) (st : Local.state)
  : Local.state :=
  match es with
  | [] => st
  | (e, answer) :: es' => run es' (snd (handle answer e st))
  end.

End LocalQuota.

(* ================================================================== *)
(** * The REST program *)
(* ================================================================== *)

Module Remote.

Import JS DOM.

(** A task item as the server lists it: [{ id, content, is_completed }].
    [id] is the identifier as a template literal prints it. *)
Record todo := mkTodo {
  id : jsstring;
  content : jsstring;
  is_completed : bool
}.

(** What [fetch] is given: the method, the URL and the body. *)
Record request := mkRequest {
  method : jsstring;
  url : jsstring;
  body : option jsstring
}.

(** What the client reads of the value [res.json()] gives.  The value is
    null; or it is an array of task items; or it is not an array (an
    object, a string, a number, a boolean), and then the client reads two
    things of it: its [error] property, as [new Error] prints it, when it
    has one that is truthy, and whether its [length] property is 0.  An
    array with elements that are not task items is not covered. *)
Inductive payload :=
| PNull
| PItems (items : list todo)
| POther (error : option jsstring) (length_zero : bool).

(** What the client reads of a response; [json] is the outcome of
    [res.json()]. *)
Record response := mkResponse {
  status : N;
  ok : bool;
  statusText : jsstring;
  json : completion payload
}.

(** What [todos] holds when it is not an array of task items: null, or a
    value that is not an array, with what [todos.length === 0] gives. *)
Inductive nonarray :=
| IsNull
| NotArray (length_zero : bool).

Definition GET (u : jsstring) : request := mkRequest (lit "GET") u None.
Definition POST (u b : jsstring) : request := mkRequest (lit "POST") u (Some b).
Definition PUT (u b : jsstring) : request := mkRequest (lit "PUT") u (Some b).
Definition DELETE (u : jsstring) : request := mkRequest (lit "DELETE") u None.

(** [`/todos/${id}`] *)
Definition todo_url (i : jsstring) : jsstring := lit "/todos/" ++ i.

(** [JSON.stringify({ content })] and [JSON.stringify({ is_completed })] *)
Definition content_body (c : jsstring) : jsstring :=
  lit "{" ++ QuoteJSONString (lit "content") ++ lit ":" ++ QuoteJSONString c
  ++ lit "}".

Definition is_completed_body (b : bool) : jsstring :=
  lit "{" ++ QuoteJSONString (lit "is_completed") ++ lit ":"
  ++ (if b then lit "true" else lit "false") ++ lit "}".

Section Client.

(** The server and the network: any state, any answers.  An answer is a
    response, or a rejection of [fetch]. *)
Variable server : Type.
Variable fetch : request -> server -> completion response * server.

(** [todos] is the module-level variable when it holds an array of task
    items; when it holds something else ([None]), [stray] says what;
    [requests] lists the calls of [fetch] so far, oldest first; [renders]
    counts the redraws that reached their end.  [race] is the timing of
    the network, which the program does not decide: of the calls awaited
    together that are rejected, the place of the one rejected first in
    time, for the calls started when [n] requests had been sent. *)
Record world := mkWorld {
  todos : option (list todo);
  srv : server;
  requests : list request;
  view : dom;
  renders : nat;
  stray : nonarray;
  race : nat -> nat
}.

Definition M (A : Type) : Type := world -> completion A * world.

Definition ret {A} (a : A) : M A := fun w => (Normal a, w).

Definition raise {A} (e : exn) : M A := fun w => (Throw e, w).

Definition mbind {A B} (m : M A) (k : A -> M B) : M B :=
  fun w =>
    match m w with
    | (Normal a, w') => k a w'
    | (Throw e, w') => (Throw e, w')
    end.

Notation "x <- m ;; k" := (mbind m (fun x => k))
  (at level 61, m at next level, right associativity).
Notation "m ;;; k" := (mbind m (fun _ => k))
  (at level 61, right associativity).

(** *** api (lines 14-25)

    What lines 21-22 throw for a response that is not ok: [err] is the
    body, or [{}] when the body is not JSON; reading [err.error] of null
    throws a TypeError; otherwise the Error carries [err.error] when it is
    truthy and the status text when it is not. *)
Definition failure (res : response) : exn :=
  match json res with
  | Normal PNull => TypeError
  | Normal (POther (Some m) _) => Error m
  | Normal (POther None _) => Error (statusText res)
  | Normal (PItems _) => Error (statusText res)
  | Throw _ => Error (statusText res)
  end.

Definition api (req : request) : M payload :=
  fun w =>
    let (r, s') := fetch req (srv w) in
    let w' := mkWorld (todos w) s' (requests w ++ [req]) (view w) (renders w)
                      (stray w) (race w) in
    match r with
    | Throw e => (Throw e, w')
    | Normal res =>
        if (status res =? 204)%N then (Normal PNull, w')
        else if negb (ok res) then (Throw (failure res), w')
        else
          match json res with
          | Normal p => (Normal p, w')
          | Throw e => (Throw e, w')
          end
    end.

(** *** renderCounts (lines 62-65) *)
Definition active (l : list todo) : nat :=
  List.length (filter (fun t => negb (is_completed t)) l).

Definition count_label (l : list todo) : jsstring :=
  count_template (active l).

Definition renderCounts : M unit :=
  fun w =>
    match todos w with
    | None => (Throw TypeError, w)
    | Some l =>
        (Normal tt,
         mkWorld (todos w) (srv w) (requests w)
                 (mkDom (list_rows (view w)) (empty_display (view w))
                        (count_label l))
                 (renders w) (stray w) (race w))
    end.

(** *** render (lines 67-108)

    On null the list is emptied and reading [todos.length] throws.  On
    another value that is not an array the list is emptied, the
    placeholder is set from [todos.length === 0], and calling
    [todos.forEach] throws. *)
Definition render_row (t : todo) : row :=
  mkRow (lit "todo-item" ++ (if is_completed t then lit " completed" else []))
        (id t) (is_completed t) (content t).

Definition rendered : M unit :=
  fun w =>
    (Normal tt,
     mkWorld (todos w) (srv w) (requests w) (view w) (S (renders w))
             (stray w) (race w)).

Definition render : M unit :=
  fun w =>
    match todos w with
    | None =>
        let shown :=
          match stray w with
          | IsNull => empty_display (view w)
          | NotArray true => Block
          | NotArray false => Hidden
          end in
        (Throw TypeError,
         mkWorld None (srv w) (requests w)
                 (mkDom [] shown (count_text (view w)))
                 (renders w) (stray w) (race w))
    | Some l =>
        let shown := match l with [] => Block | _ :: _ => Hidden end in
        (renderCounts ;;; rendered)
          (mkWorld (Some l) (srv w) (requests w)
                   (mkDom (map render_row l) shown (count_text (view w)))
                   (renders w) (stray w) (race w))
    end.

Definition set_todos (v : payload) : M unit :=
  fun w =>
    (Normal tt,
     mkWorld (match v with PItems l => Some l | _ => None end)
             (srv w) (requests w) (view w) (renders w)
             (match v with
              | PNull => IsNull
              | PItems _ => stray w
              | POther _ z => NotArray z
              end)
             (race w)).

(** *** fetchTodos (lines 27-30) *)
Definition fetchTodos : M unit :=
  v <- api (GET (lit "/todos")) ;;
  set_todos v ;;;
  render.

(** *** addTodo (lines 32-40) *)
Definition addTodo (txt : jsstring) : M unit :=
  let c := trim txt in
  if negb (truthy c) then ret tt
  else
    api (POST (lit "/todos") (content_body c)) ;;;
    fetchTodos.

(** *** toggleTodo (lines 42-48) *)
Definition toggleTodo (i : jsstring) (c : bool) : M unit :=
  api (PUT (todo_url i) (is_completed_body c)) ;;;
  fetchTodos.

(** *** deleteTodo (lines 50-53) *)
Definition deleteTodo (i : jsstring) : M unit :=
  api (DELETE (todo_url i)) ;;;
  fetchTodos.

(** *** clearCompleted (lines 55-59)

    [map] starts every call before any answer is awaited, so every request
    is sent, in the order of the list; [Promise.all] then rejects when one
    of them was rejected, with what the call rejected first in time threw.
    The server is taken to answer the requests in the order they were
    sent; which rejection comes first in time is left to [race]: the place
    it gives is counted among the rejected calls, in the order of the
    list, and a place beyond the last stands for the first. *)
Fixpoint all_api (reqs : list request) (w : world)
  : list (completion payload) * world :=
  match reqs with
  | [] => ([], w)
  | r :: reqs' =>
      let (o, w1) := api r w in
      let (os, w2) := all_api reqs' w1 in
      (o :: os, w2)
  end.

Fixpoint rejections (os : list (completion payload)) : list exn :=
  match os with
  | [] => []
  | Throw e :: os' => e :: rejections os'
  | Normal _ :: os' => rejections os'
  end.

Definition Promise_all (reqs : list request) : M unit :=
  fun w =>
    let (os, w') := all_api reqs w in
    match rejections os with
    | [] => (Normal tt, w')
    | e :: es =>
        (Throw (nth (race w (List.length (requests w))) (e :: es) e), w')
    end.

Definition clearCompleted : M unit :=
  fun w =>
    match todos w with
    | None => (Throw TypeError, w)
    | Some l =>
        let completed := filter (fun t => is_completed t) l in
        (Promise_all (map (fun t => DELETE (todo_url (id t))) completed) ;;;
         fetchTodos) w
    end.

(** *** onSubmit (lines 111-116)

    The text field is emptied and focused after [addTodo] has returned; a
    rejection of [addTodo] leaves it as it was. *)
Record form := mkForm {
  input_value : jsstring;
  input_focused : bool
}.

Definition onSubmit (p : form * world) : completion unit * (form * world) :=
  let (f, w) := p in
  match addTodo (input_value f) w with
  | (Normal _, w') => (Normal tt, (mkForm [] true, w'))
  | (Throw e, w') => (Throw e, (f, w'))
  end.

(** *** init (lines 118-122) *)
Definition init : M unit := fetchTodos.

(** *** Runs of the program *)
Inductive event :=
| Fetch
| Add (txt : jsstring)
| Toggle (i : jsstring) (c : bool)
| Delete (i : jsstring)
| Clear.

Definition handle (e : event) : M unit :=
  match e with
  | Fetch => fetchTodos
  | Add txt => addTodo txt
  | Toggle i c => toggleTodo i c
  | Delete i => deleteTodo i
  | Clear => clearCompleted
  end.

(** The calls an operation makes before it fetches the list. *)
Definition calls (e : event) (w : world) : list request :=
  match e with
  | Fetch => []
  | Add txt => [POST (lit "/todos") (content_body (trim txt))]
  | Toggle i c => [PUT (todo_url i) (is_completed_body c)]
  | Delete i => [DELETE (todo_url i)]
  | Clear =>
      match todos w with
      | Some l =>
          map (fun t => DELETE (todo_url (id t)))
              (filter (fun t => is_completed t) l)
      | None => []
      end
  end.

(** The document shows the list [l], which is the client's collection. *)
Definition shows (w : world) (l : list todo) : Prop :=
  todos w = Some l
  /\ list_rows (view w) = map render_row l
  /\ (empty_display (view w) = Block <-> l = [])
  /\ count_text (view w) = count_label l.

End Client.

End Remote.

(* ================================================================== *)
(** * Sample data *)
(* ================================================================== *)

Module Sample.

Import JS.

(** The collection of the specification's example:
    [{"a", false}, {"b", true}]. *)
Definition a : Local.todo := Local.mkTodo (lit "a") (lit "a") false 1700000000000.
Definition b : Local.todo := Local.mkTodo (lit "b") (lit "b") true 1700000000001.

Definition two : Local.state := Local.set_todos [a; b] Local.initial.
Definition one : Local.state := Local.set_todos [a] Local.initial.

(** A server that answers every request with 200 and an empty list. *)
Definition empty_list (_ : Remote.request) (s : unit)
  : completion Remote.response * unit :=
  (Normal (Remote.mkResponse 200 true (lit "OK")
             (Normal (Remote.PItems []))), s).

Definition ra : Remote.todo := Remote.mkTodo (lit "1") (lit "a") false.
Definition rb : Remote.todo := Remote.mkTodo (lit "2") (lit "b") true.

Definition world0 (l : list Remote.todo) : Remote.world unit :=
  Remote.mkWorld (Some l) tt [] (DOM.mkDom [] DOM.Hidden []) 0 Remote.IsNull
                 (fun _ => 0).

(** The same, with a network on which the second of the rejected calls is
    rejected first. *)
Definition world1 (l : list Remote.todo) : Remote.world unit :=
  Remote.mkWorld (Some l) tt [] (DOM.mkDom [] DOM.Hidden []) 0 Remote.IsNull
                 (fun _ => 1).

(** A server that answers every request with 404 and an error message. *)
Definition not_found (_ : Remote.request) (s : unit)
  : completion Remote.response * unit :=
  (Normal (Remote.mkResponse 404 false (lit "Not Found")
             (Normal (Remote.POther (Some (lit "no such todo")) false))), s).

(** A server that answers every request with 404 and, as the error
    message, the URL asked for. *)
Definition not_found_url (r : Remote.request) (s : unit)
  : completion Remote.response * unit :=
  (Normal (Remote.mkResponse 404 false (lit "Not Found")
             (Normal (Remote.POther (Some (Remote.url r)) false))), s).

(** A server that answers every request with 500 and the body [null]. *)
Definition null_body (_ : Remote.request) (s : unit)
  : completion Remote.response * unit :=
  (Normal (Remote.mkResponse 500 false (lit "Internal Server Error")
             (Normal Remote.PNull)), s).

(** A server that answers every request with 200 and a body that is an
    object, not an array. *)
Definition object_body (_ : Remote.request) (s : unit)
  : completion Remote.response * unit :=
  (Normal (Remote.mkResponse 200 true (lit "OK")
             (Normal (Remote.POther None false))), s).

(** A server that answers every request with 204. *)
Definition no_content (_ : Remote.request) (s : unit)
  : completion Remote.response * unit :=
  (Normal (Remote.mkResponse 204 true (lit "No Content") (Throw SyntaxError)),
   s).

(** A state of the local program after [init] on a store holding the two
    items. *)
Definition two_drawn : Local.state :=
  Local.render (Local.save two).

End Sample.

(* ================================================================== *)
(** * Properties *)
(* ================================================================== *)

Import JS DOM.

(** ** Strings and lists *)

Lemma str_eqb_eq (a b : jsstring) : str_eqb a b = true <-> a = b.
Proof.
  revert b; induction a as [|x a IH]; intros [|y b]; simpl;
    try (split; congruence).
  rewrite andb_true_iff, N.eqb_eq, IH. split.
  - intros [-> ->]; reflexivity.
  - intros H; injection H; auto.
Qed.

Lemma str_eqb_refl (a : jsstring) : str_eqb a a = true.
Proof. apply str_eqb_eq; reflexivity. Qed.

Lemma str_eqb_neq (a b : jsstring) : str_eqb a b = false <-> a <> b.
Proof.
  rewrite <- str_eqb_eq. destruct (str_eqb a b); split; congruence.
Qed.

Lemma filter_all {A} (p : A -> bool) (l : list A) :
  (forall x, In x l -> p x = true) -> filter p l = l.
Proof.
  induction l as [|x l IH]; simpl; intros H; [reflexivity|].
  rewrite (H x (or_introl eq_refl)), IH; auto.
Qed.

Lemma filter_length_le {A} (p : A -> bool) (l : list A) :
  List.length (filter p l) <= List.length l.
Proof.
  induction l as [|x l IH]; simpl; [lia|]. destruct (p x); simpl; lia.
Qed.

(** A filter that keeps the length keeps every element. *)
Lemma filter_same_length {A} (p : A -> bool) (l : list A) :
  List.length (filter p l) = List.length l -> forall x, In x l -> p x = true.
Proof.
  induction l as [|y l IH]; simpl; intros H x Hx; [contradiction|].
  destruct (p y) eqn:Hy.
  - simpl in H. destruct Hx as [<-|Hx]; [assumption|].
    apply IH; [lia|assumption].
  - pose proof (filter_length_le p l). lia.
Qed.

Lemma trimStart_blank (s : jsstring) :
  trimStart s = [] <-> forallb isWhiteSpace s = true.
Proof.
  induction s as [|c s IH]; simpl; [tauto|].
  destruct (isWhiteSpace c); simpl; [exact IH|].
  split; discriminate.
Qed.

Lemma trimStart_head (s : jsstring) c s' :
  trimStart s = c :: s' -> isWhiteSpace c = false.
Proof.
  induction s as [|a s IH]; simpl; [discriminate|].
  destruct (isWhiteSpace a) eqn:Ha; [exact IH|].
  intros H; injection H as <- _; assumption.
Qed.

Lemma forallb_rev {A} (p : A -> bool) (l : list A) :
  forallb p (rev l) = true <-> forallb p l = true.
Proof.
  rewrite !forallb_forall. split; intros H x Hx; apply H.
  - apply in_rev in Hx; assumption.
  - apply in_rev; assumption.
Qed.

(** The trimmed form is empty exactly for a string of white space only. *)
Lemma trim_blank (s : jsstring) :
  trim s = [] <-> forallb isWhiteSpace s = true.
Proof.
  unfold trim, trimEnd. split.
  - intros H. apply trimStart_blank.
    assert (H1 : trimStart (rev (trimStart s)) = []).
    { destruct (trimStart (rev (trimStart s))) as [|a l]; [reflexivity|].
      simpl in H. destruct (rev l); discriminate. }
    apply trimStart_blank in H1. apply (proj1 (forallb_rev _ _)) in H1.
    destruct (trimStart s) as [|c s'] eqn:E; [reflexivity|].
    apply trimStart_head in E. cbn [forallb] in H1. rewrite E in H1. discriminate.
  - intros H. apply trimStart_blank in H. rewrite H. reflexivity.
Qed.

(** ** The local collection *)

Lemma find_id_none (i : jsstring) (l : list Local.todo) :
  find (fun x => str_eqb (Local.id x) i) l = None
  <-> ~ In i (map Local.id l).
Proof.
  induction l as [|x l IH]; simpl; [tauto|].
  destruct (str_eqb (Local.id x) i) eqn:E.
  - apply str_eqb_eq in E. split; [discriminate|]. intros H; tauto.
  - apply str_eqb_neq in E. rewrite IH. tauto.
Qed.

Lemma find_id_some (i : jsstring) (l : list Local.todo) :
  In i (map Local.id l) ->
  exists t, find (fun x => str_eqb (Local.id x) i) l = Some t.
Proof.
  intros H. destruct (find _ l) eqn:E; [eauto|].
  apply find_id_none in E. contradiction.
Qed.

(** The first item with a given id splits the collection, and the
    assignment rewrites that item alone. *)
Lemma find_id_split (i : jsstring) (l : list Local.todo) t :
  find (fun x => str_eqb (Local.id x) i) l = Some t ->
  exists l1 l2,
    l = l1 ++ t :: l2 /\ Local.id t = i /\ ~ In i (map Local.id l1) /\
    forall c, Local.assign_completed i c l
    = l1 ++ Local.mkTodo (Local.id t) (Local.text t) c (Local.createdAt t)
         :: l2.
Proof.
  induction l as [|x l IH]; simpl; [discriminate|].
  destruct (str_eqb (Local.id x) i) eqn:E.
  - intros H; injection H as ->. exists [], l.
    split; [reflexivity|]. split; [apply str_eqb_eq; assumption|].
    split; [simpl; tauto|]. intros c. reflexivity.
  - intros H. destruct (IH H) as (l1 & l2 & -> & Hid & Hn & H2).
    exists (x :: l1), l2. apply str_eqb_neq in E.
    simpl. repeat split; auto.
    + intros [H0|H0]; [congruence|contradiction].
    + intros c; rewrite H2; reflexivity.
Qed.

Lemma delete_absent (i : jsstring) (l : list Local.todo) :
  ~ In i (map Local.id l) ->
  filter (fun x => negb (str_eqb (Local.id x) i)) l = l.
Proof.
  intros H. apply filter_all. intros x Hx.
  apply negb_true_iff, str_eqb_neq. intros <-.
  apply H, in_map; assumption.
Qed.

(** The number of items whose flag is false, counted one by one. *)
Lemma active_count_occ (l : list Local.todo) :
  Local.active l = count_occ bool_dec (map Local.completed l) false.
Proof.
  unfold Local.active. induction l as [|x l IH]; simpl; [reflexivity|].
  destruct (Local.completed x); simpl; rewrite IH; reflexivity.
Qed.

Lemma active_app (l1 l2 : list Local.todo) :
  Local.active (l1 ++ l2) = Local.active l1 + Local.active l2.
Proof.
  unfold Local.active. rewrite filter_app, length_app. reflexivity.
Qed.

(** ** The remote client's requests *)

Section RemoteFacts.

Variable server : Type.
Variable fetch : Remote.request -> server -> completion Remote.response * server.

(** [api] sends its request, whatever the answer, and touches nothing else
    of the client. *)
Lemma api_sends (req : Remote.request) (w : Remote.world server) :
  Remote.requests (snd (Remote.api fetch req w)) = Remote.requests w ++ [req]
  /\ Remote.todos (snd (Remote.api fetch req w)) = Remote.todos w
  /\ Remote.renders (snd (Remote.api fetch req w)) = Remote.renders w.
Proof.
  unfold Remote.api. destruct (fetch req (Remote.srv w)) as [[res|e] s'].
  - destruct (N.eqb (Remote.status res) 204); [simpl; auto|].
    destruct (negb (Remote.ok res)); [simpl; auto|].
    destruct (Remote.json res); simpl; auto.
  - simpl; auto.
Qed.

(** [api] changes the server and the list of requests, nothing else. *)
Lemma api_world (req : Remote.request) (w : Remote.world server) :
  snd (Remote.api fetch req w)
  = Remote.mkWorld (Remote.todos w) (snd (fetch req (Remote.srv w)))
                   (Remote.requests w ++ [req]) (Remote.view w)
                   (Remote.renders w) (Remote.stray w) (Remote.race w).
Proof.
  unfold Remote.api. destruct (fetch req (Remote.srv w)) as [[res|e] s'].
  - destruct (N.eqb (Remote.status res) 204); [reflexivity|].
    destruct (negb (Remote.ok res)); [reflexivity|].
    destruct (Remote.json res); reflexivity.
  - reflexivity.
Qed.

(** A call that throws ends the operation: the list is not fetched. *)
Lemma call_rejected (req : Remote.request) (w : Remote.world server)
    (e : exn) :
  fst (Remote.api fetch req w) = Throw e ->
  Remote.mbind (Remote.api fetch req) (fun _ => Remote.fetchTodos fetch) w
  = (Throw e, snd (Remote.api fetch req w)).
Proof.
  unfold Remote.mbind. destruct (Remote.api fetch req w) as [[v|e'] w1];
    cbn [fst snd]; intros H; [discriminate|]. injection H as ->. reflexivity.
Qed.

(** A call that returns is followed by the fetch of the list. *)
Lemma call_returned (req : Remote.request) (w : Remote.world server)
    (v : Remote.payload) :
  fst (Remote.api fetch req w) = Normal v ->
  Remote.mbind (Remote.api fetch req) (fun _ => Remote.fetchTodos fetch) w
  = Remote.fetchTodos fetch (snd (Remote.api fetch req w)).
Proof.
  unfold Remote.mbind. destruct (Remote.api fetch req w) as [[v'|e'] w1];
    cbn [fst snd]; intros H; [reflexivity|discriminate].
Qed.

Lemma fetchTodos_requests (w : Remote.world server) :
  Remote.requests (snd (Remote.fetchTodos fetch w))
  = Remote.requests w ++ [Remote.GET (lit "/todos")].
Proof.
  unfold Remote.fetchTodos, Remote.mbind.
  pose proof (api_sends (Remote.GET (lit "/todos")) w) as (H & _).
  destruct (Remote.api fetch (Remote.GET (lit "/todos")) w) as [[v|e] w1];
    simpl in *; [|assumption].
  unfold Remote.render; simpl. destruct v; simpl; assumption.
Qed.

Lemma render_count_text (w : Remote.world server) (l : list Remote.todo) :
  Remote.todos w = Some l ->
  fst (Remote.render w) = Normal tt
  /\ count_text (Remote.view (snd (Remote.render w))) = Remote.count_label l
  /\ Remote.renders (snd (Remote.render w)) = S (Remote.renders w).
Proof.
  intros H. unfold Remote.render. rewrite H. simpl. auto.
Qed.

(** [fetchTodos] returns only when the GET was answered by an ok response,
    not 204, whose body is an array; the collection is then that array,
    drawn. *)
Lemma fetchTodos_returns (w w' : Remote.world server) :
  Remote.fetchTodos fetch w = (Normal tt, w') ->
  exists res l,
    fetch (Remote.GET (lit "/todos")) (Remote.srv w) = (Normal res, Remote.srv w')
    /\ Remote.status res <> 204%N
    /\ Remote.ok res = true
    /\ Remote.json res = Normal (Remote.PItems l)
    /\ Remote.shows w' l
    /\ Remote.renders w' = S (Remote.renders w)
    /\ Remote.requests w' = Remote.requests w ++ [Remote.GET (lit "/todos")].
Proof.
  unfold Remote.fetchTodos, Remote.mbind, Remote.api.
  destruct (fetch (Remote.GET (lit "/todos")) (Remote.srv w))
    as [[res|e] s'] eqn:Hf; [|discriminate].
  destruct (N.eqb_spec (Remote.status res) 204) as [Hs|Hs];
    [cbn; discriminate|].
  destruct (Remote.ok res) eqn:Ho; cbn [negb]; [|discriminate].
  destruct (Remote.json res) as [[|l|m z]|e] eqn:Hj;
    try (cbn; discriminate).
  unfold Remote.set_todos, Remote.render, Remote.mbind, Remote.renderCounts,
    Remote.rendered.
  cbn [Remote.todos Remote.srv Remote.requests Remote.view Remote.renders
         Remote.stray list_rows empty_display count_text].
  intros H; injection H as <-. exists res, l.
  unfold Remote.shows.
  cbn [Remote.todos Remote.srv Remote.requests Remote.view Remote.renders
         list_rows empty_display count_text].
  repeat split; try assumption; try (destruct l; congruence).
Qed.

(** A call followed by a re-fetch, in full: the call is sent, and touches
    neither the collection nor the document; when it throws the operation
    throws the same and stops there; when it returns the operation goes on
    as [fetchTodos], which sends the GET; and when the operation returns,
    the collection is the array the server gave in answer to that GET,
    drawn. *)
Lemma call_then_fetch_exactly (req : Remote.request)
    (w : Remote.world server) :
  let op := Remote.mbind (Remote.api fetch req)
                         (fun _ => Remote.fetchTodos fetch) in
  let w1 := snd (Remote.api fetch req w) in
  Remote.requests w1 = Remote.requests w ++ [req]
  /\ Remote.todos w1 = Remote.todos w
  /\ Remote.view w1 = Remote.view w
  /\ (forall e, fst (Remote.api fetch req w) = Throw e ->
      op w = (Throw e, w1))
  /\ (forall v, fst (Remote.api fetch req w) = Normal v ->
      op w = Remote.fetchTodos fetch w1
      /\ Remote.requests (snd (op w))
         = Remote.requests w ++ [req; Remote.GET (lit "/todos")])
  /\ (forall w', op w = (Normal tt, w') ->
      exists res l,
        fetch (Remote.GET (lit "/todos")) (Remote.srv w1)
        = (Normal res, Remote.srv w')
        /\ Remote.status res <> 204%N
        /\ Remote.ok res = true
        /\ Remote.json res = Normal (Remote.PItems l)
        /\ Remote.shows w' l).
Proof.
  cbv zeta. split; [|split; [|split; [|split; [|split]]]].
  - rewrite api_world. reflexivity.
  - rewrite api_world. reflexivity.
  - rewrite api_world. reflexivity.
  - intros e H. rewrite (@call_rejected req w e H). reflexivity.
  - intros v H. rewrite (@call_returned req w v H).
    split; [reflexivity|]. rewrite fetchTodos_requests, api_world.
    cbn [Remote.requests]. rewrite <- app_assoc. reflexivity.
  - intros w'. unfold Remote.mbind.
    destruct (Remote.api fetch req w) as [[v|e] w1]; [|discriminate].
    cbn [snd]. intros H.
    apply fetchTodos_returns in H as (res & l & H0 & Hs & Ho & Hj & H1 & _).
    exists res, l. auto.
Qed.

(** A call followed by a re-fetch: the call is sent first; the list is
    fetched again when the call was not rejected. *)
Lemma call_then_fetch (req : Remote.request) (w : Remote.world server) :
  exists rest,
    Remote.requests
      (snd (Remote.mbind (Remote.api fetch req)
              (fun _ => Remote.fetchTodos fetch) w))
    = Remote.requests w ++ req :: rest
    /\ (rest = [] \/ rest = [Remote.GET (lit "/todos")]).
Proof.
  unfold Remote.mbind.
  pose proof (api_sends req w) as (H & _).
  destruct (Remote.api fetch req w) as [[v|e] w1]; simpl in *.
  - exists [Remote.GET (lit "/todos")]. split; [|auto].
    rewrite fetchTodos_requests, H, <- app_assoc. reflexivity.
  - exists []. split; [assumption|auto].
Qed.

Lemma all_api_requests (reqs : list Remote.request) (w : Remote.world server) :
  Remote.requests (snd (Remote.all_api fetch reqs w))
  = Remote.requests w ++ reqs.
Proof.
  revert w. induction reqs as [|r reqs IH]; intros w; simpl.
  - rewrite List.app_nil_r; reflexivity.
  - pose proof (api_sends r w) as (H & _).
    destruct (Remote.api fetch r w) as [o w1]. simpl in H.
    specialize (IH w1).
    destruct (Remote.all_api fetch reqs w1) as [os w2]. simpl in *.
    rewrite IH, H, <- app_assoc. reflexivity.
Qed.

(** [clearCompleted] sends one DELETE per completed item, in the order of
    the list, and then fetches the list when none was rejected. *)
Lemma clearCompleted_requests (w : Remote.world server) (l : list Remote.todo) :
  Remote.todos w = Some l ->
  exists rest,
    Remote.requests (snd (Remote.clearCompleted fetch w))
    = Remote.requests w
      ++ map (fun t => Remote.DELETE (Remote.todo_url (Remote.id t)))
             (filter (fun t => Remote.is_completed t) l)
      ++ rest
    /\ (rest = [] \/ rest = [Remote.GET (lit "/todos")])
    /\ (filter (fun t => Remote.is_completed t) l = [] ->
        rest = [Remote.GET (lit "/todos")]).
Proof.
  intros Hl. unfold Remote.clearCompleted. rewrite Hl.
  set (reqs := map _ (filter _ l)).
  unfold Remote.mbind, Remote.Promise_all.
  pose proof (all_api_requests reqs w) as H.
  assert (Hnil : reqs = [] ->
                 fst (Remote.all_api fetch reqs w) = []).
  { intros ->; reflexivity. }
  destruct (Remote.all_api fetch reqs w) as [os w1]. simpl in H, Hnil.
  destruct (Remote.rejections os) eqn:Hr; cbn [snd].
  - exists [Remote.GET (lit "/todos")].
    rewrite fetchTodos_requests, H, <- app_assoc. auto.
  - exists []. rewrite List.app_nil_r. split; [assumption|]. split; [auto|].
    intros Hc. subst reqs. rewrite Hc in Hnil. simpl in Hnil.
    rewrite Hnil in Hr by reflexivity. discriminate.
Qed.

End RemoteFacts.

Lemma find_after_assign (i : jsstring) (c : bool) (l : list Local.todo) t :
  find (fun x => str_eqb (Local.id x) i) l = Some t ->
  find (fun x => str_eqb (Local.id x) i) (Local.assign_completed i c l)
  = Some (Local.mkTodo (Local.id t) (Local.text t) c (Local.createdAt t)).
Proof.
  induction l as [|x l IH]; simpl; [discriminate|].
  destruct (str_eqb (Local.id x) i) eqn:E; simpl; rewrite E.
  - intros H; injection H as ->; reflexivity.
  - exact IH.
Qed.

Lemma same_item_refl (x : Local.todo) : Local.same_item x x.
Proof. repeat split. Qed.

Lemma order_kept_refl (l : list Local.todo) : Local.order_kept l l.
Proof.
  induction l; constructor; auto using same_item_refl.
Qed.

Lemma order_kept_filter (p : Local.todo -> bool) (l : list Local.todo) :
  Local.order_kept l (filter p l).
Proof.
  induction l as [|x l IH]; simpl; [constructor|].
  destruct (p x); constructor; auto using same_item_refl.
Qed.

Lemma order_kept_assign (i : jsstring) (c : bool) (l : list Local.todo) :
  Local.order_kept l (Local.assign_completed i c l).
Proof.
  induction l as [|x l IH]; simpl; [constructor|].
  destruct (str_eqb (Local.id x) i); constructor;
    auto using same_item_refl, order_kept_refl.
  repeat split.
Qed.

Lemma set_todos_same (st : Local.state) :
  Local.set_todos (Local.todos st) st = st.
Proof. destruct st; reflexivity. Qed.

(** What [save] followed by [render] leaves behind. *)
Lemma persisted (st : Local.state) :
  let st' := Local.render (Local.save st) in
  Local.todos st' = Local.todos st
  /\ Local.storage st' = Some (Local.JSON_stringify (Local.todos st))
  /\ Local.trace st'
     = Local.trace st
       ++ [Local.SetItem Local.STORAGE_KEY
             (Local.JSON_stringify (Local.todos st)); Local.Render]
  /\ count_text (Local.view st') = Local.count_label (Local.todos st).
Proof.
  simpl. rewrite <- app_assoc. auto.
Qed.

(** ** The decimal digits of a number *)

Lemma uint_chars_digits (d : Decimal.uint) :
  forallb is_digit (uint_chars d) = true.
Proof. induction d; simpl; auto. Qed.

Lemma read_uint_chars (d : Decimal.uint) (acc : N) :
  fold_left (fun a c => a * 10 + (c - 0x30))%N (uint_chars d) acc
  = (Unsigned.of_lu (Decimal.rev d) + acc * 10 ^ Unsigned.usize d)%N.
Proof.
  revert acc. induction d; intros acc;
    [ simpl; rewrite N.mul_1_r; reflexivity | .. ];
    cbn [uint_chars fold_left]; rewrite IHd;
    unfold Decimal.rev; cbn [Decimal.revapp];
    rewrite (Unsigned.of_lu_revapp d (_ Decimal.Nil));
    cbn [Unsigned.usize]; rewrite N.pow_succ_r';
    unfold digit_char; simpl Unsigned.of_lu; simpl N.sub.
  all: fold (Decimal.rev d); generalize (10 ^ Unsigned.usize d)%N; intros p;
    nia.
Qed.

(** The digits [Number::toString] prints denote the number printed. *)
Lemma read_N_toString (n : N) : read_decimal (N_toString n) = n.
Proof.
  unfold read_decimal, N_toString. rewrite read_uint_chars.
  rewrite N.mul_0_l, N.add_0_r, <- Unsigned.of_uint_alt.
  apply (DecimalN.Unsigned.of_to n).
Qed.

(* ================================================================== *)
(** * The operations of the state store *)
(* ================================================================== *)

Section Store.

Variable server : Type.
Variable fetch : Remote.request -> server -> completion Remote.response * server.

(** C4. Adding a text whose trimmed form is empty does nothing: in the
    local program the state is the one before (same collection, same size,
    nothing written, nothing drawn); in the remote program no request is
    sent and the client is as before. *)
Theorem add_blank_is_noop (fresh : jsstring) (now : Z) (txt : jsstring)
    (st : Local.state) (w : Remote.world server) :
  trim txt = [] ->
  Local.addTodo fresh now txt st = st
  /\ List.length (Local.todos (Local.addTodo fresh now txt st))
     = List.length (Local.todos st)
  /\ Local.trace (Local.addTodo fresh now txt st) = Local.trace st
  /\ Remote.addTodo fetch txt w = (Normal tt, w).
Proof.
  intros H. unfold Local.addTodo, Remote.addTodo. rewrite H. simpl. auto.
Qed.

(** A text made of white space only is such a text. *)
Corollary add_white_space_is_noop (fresh : jsstring) (now : Z)
    (txt : jsstring) (st : Local.state) (w : Remote.world server) :
  forallb isWhiteSpace txt = true ->
  Local.addTodo fresh now txt st = st
  /\ Remote.addTodo fetch txt w = (Normal tt, w).
Proof.
  intros H. apply trim_blank in H.
  unfold Local.addTodo, Remote.addTodo. rewrite H. simpl. auto.
Qed.


(** C2, amended. In the local program, toggling an id that is not in the
    collection does nothing, and toggling one that is in it gives the first
    item with that id the flag passed, writes the collection to the store
    and draws it.  The remote program sends the PUT request whatever its
    collection holds; the call changes neither the collection nor the
    document; when the call throws, the operation throws the same and
    nothing else is sent; when the call returns, the operation goes on as
    [fetchTodos]: the GET of the list is sent; and when the operation
    returns, the collection is the array the server gave in answer to that
    GET, drawn. *)
Theorem toggle_local_guarded_remote_always (i : jsstring) (c : bool)
    (st : Local.state) (w : Remote.world server) :
  (~ In i (map Local.id (Local.todos st)) -> Local.toggleTodo i c st = st)
  /\ (In i (map Local.id (Local.todos st)) ->
      let st' := Local.toggleTodo i c st in
      (exists t,
          find (fun x => str_eqb (Local.id x) i) (Local.todos st') = Some t
          /\ Local.completed t = c)
      /\ Local.storage st' = Some (Local.JSON_stringify (Local.todos st'))
      /\ Local.trace st'
         = Local.trace st
           ++ [Local.SetItem Local.STORAGE_KEY
                 (Local.JSON_stringify (Local.todos st')); Local.Render])
  /\ let req := Remote.PUT (Remote.todo_url i) (Remote.is_completed_body c) in
     let w1 := snd (Remote.api fetch req w) in
     Remote.requests w1 = Remote.requests w ++ [req]
     /\ Remote.todos w1 = Remote.todos w
     /\ Remote.view w1 = Remote.view w
     /\ (forall e, fst (Remote.api fetch req w) = Throw e ->
         Remote.toggleTodo fetch i c w = (Throw e, w1))
     /\ (forall v, fst (Remote.api fetch req w) = Normal v ->
         Remote.toggleTodo fetch i c w = Remote.fetchTodos fetch w1
         /\ Remote.requests (snd (Remote.toggleTodo fetch i c w))
            = Remote.requests w ++ [req; Remote.GET (lit "/todos")])
     /\ (forall w', Remote.toggleTodo fetch i c w = (Normal tt, w') ->
         exists res l,
           fetch (Remote.GET (lit "/todos")) (Remote.srv w1)
           = (Normal res, Remote.srv w')
           /\ Remote.status res <> 204%N
           /\ Remote.ok res = true
           /\ Remote.json res = Normal (Remote.PItems l)
           /\ Remote.shows w' l).
Proof.
  split; [|split].
  - intros H. apply find_id_none in H. unfold Local.toggleTodo.
    rewrite H. reflexivity.
  - intros H. destruct (find_id_some _ _ H) as (t & Ht).
    unfold Local.toggleTodo. rewrite Ht.
    set (st1 := Local.set_todos (Local.assign_completed i c (Local.todos st)) st).
    destruct (persisted st1) as (H1 & H2 & H3 & _).
    cbv zeta. rewrite H1. split; [|split; assumption].
    eexists. split; [apply find_after_assign; eassumption|reflexivity].
  - apply (call_then_fetch_exactly fetch
             (Remote.PUT (Remote.todo_url i) (Remote.is_completed_body c)) w).
Qed.

(** C3. With no completed item [clearCompleted] writes nothing: the local
    program's state is the one before, and the remote program sends no
    DELETE, only the fetch of the list.  With completed items, the local
    program keeps exactly the items that are not completed, in their
    order, and writes and draws once; the remote program sends one DELETE
    for each completed item, in the order of the list, before the fetch. *)
Theorem clearCompleted_batch (st : Local.state) (w : Remote.world server)
    (l : list Remote.todo) :
  ((forall t, In t (Local.todos st) -> Local.completed t = false) ->
   Local.clearCompleted st = st)
  /\ ((exists t, In t (Local.todos st) /\ Local.completed t = true) ->
      let st' := Local.clearCompleted st in
      Local.todos st'
      = filter (fun x => negb (Local.completed x)) (Local.todos st)
      /\ (forall t, In t (Local.todos st') <->
                    In t (Local.todos st) /\ Local.completed t = false)
      /\ Local.storage st' = Some (Local.JSON_stringify (Local.todos st'))
      /\ Local.trace st'
         = Local.trace st
           ++ [Local.SetItem Local.STORAGE_KEY
                 (Local.JSON_stringify (Local.todos st')); Local.Render])
  /\ (Remote.todos w = Some l ->
      exists rest,
        Remote.requests (snd (Remote.clearCompleted fetch w))
        = Remote.requests w
          ++ map (fun t => Remote.DELETE (Remote.todo_url (Remote.id t)))
                 (filter (fun t => Remote.is_completed t) l)
          ++ rest
        /\ (rest = [] \/ rest = [Remote.GET (lit "/todos")])
        /\ ((forall t, In t l -> Remote.is_completed t = false) ->
            Remote.requests (snd (Remote.clearCompleted fetch w))
            = Remote.requests w ++ [Remote.GET (lit "/todos")])).
Proof.
  split; [|split].
  - intros H. unfold Local.clearCompleted.
    rewrite filter_all by (intros x Hx; rewrite (H x Hx); reflexivity).
    rewrite set_todos_same, Nat.eqb_refl. reflexivity.
  - intros (t & Ht & Hc). unfold Local.clearCompleted.
    set (st1 := Local.set_todos _ st).
    assert (Hne : Nat.eqb (List.length (Local.todos st1))
                          (List.length (Local.todos st)) = false).
    { apply Nat.eqb_neq. intros Heq.
      pose proof (filter_same_length _ _ Heq t Ht) as Hk.
      simpl in Hk. rewrite Hc in Hk. discriminate. }
    rewrite Hne. cbv zeta. simpl negb. cbv iota.
    destruct (persisted st1) as (H1 & H2 & H3 & _).
    rewrite H1. split; [reflexivity|]. split; [|split; assumption].
    intros x. simpl. rewrite filter_In, negb_true_iff. reflexivity.
  - intros Hl. destruct (clearCompleted_requests fetch w Hl)
      as (rest & H1 & H2 & H3).
    exists rest. split; [assumption|]. split; [assumption|].
    intros Hnone.
    assert (Hf : filter (fun t => Remote.is_completed t) l = []).
    { clear -Hnone. induction l as [|x l IH]; simpl; [reflexivity|].
      rewrite (Hnone x (or_introl eq_refl)). apply IH.
      intros t Ht; apply Hnone; right; assumption. }
    rewrite H1, Hf, (H3 Hf). reflexivity.
Qed.

End Store.

(* ================================================================== *)
(** * The counter and the order of the collection *)
(* ================================================================== *)

Lemma remote_active_count_occ (l : list Remote.todo) :
  Remote.active l = count_occ bool_dec (map Remote.is_completed l) false.
Proof.
  unfold Remote.active. induction l as [|x l IH]; simpl; [reflexivity|].
  destruct (Remote.is_completed x); simpl; rewrite IH; reflexivity.
Qed.

(** C8. The text of the counter is the decimal writing of the number of
    items whose flag is false, a space, and the word item when that number
    is 1, items otherwise; so after [renderCounts] and after [render], in
    the local program and in the remote one. *)
Theorem count_label_counts_incomplete (st : Local.state) (server : Type)
    (w : Remote.world server) (l : list Remote.todo) :
  let n := count_occ bool_dec (map Local.completed (Local.todos st)) false in
  let m := count_occ bool_dec (map Remote.is_completed l) false in
  let label (k : nat) :=
    N_toString (N.of_nat k) ++ lit " "
    ++ (if Nat.eqb k 1 then lit "item" else lit "items") in
  count_text (Local.view (Local.renderCounts st)) = label n
  /\ count_text (Local.view (Local.render st)) = label n
  /\ read_decimal (N_toString (N.of_nat n)) = N.of_nat n
  /\ (Remote.todos w = Some l ->
      count_text (Remote.view (snd (Remote.renderCounts w))) = label m
      /\ count_text (Remote.view (snd (Remote.render w))) = label m).
Proof.
  cbv zeta. rewrite <- active_count_occ, <- remote_active_count_occ.
  split; [reflexivity|]. split; [reflexivity|].
  split; [apply read_N_toString|].
  intros H. split.
  - unfold Remote.renderCounts. rewrite H. reflexivity.
  - apply (render_count_text w H).
Qed.

Lemma active_cons (x : Local.todo) (l : list Local.todo) :
  Local.active (x :: l)
  = (if Local.completed x then 0 else 1) + Local.active l.
Proof. unfold Local.active; simpl. destruct (Local.completed x); reflexivity. Qed.

(** C5, amended. Let the first item with the id passed have a flag
    different from the value passed: the toggle changes the number of
    active items by exactly one, down when the value is true and up when it
    is false.  Let it have the value passed already: the number does not
    change.  Either way the counter drawn shows the new number. *)
Theorem toggle_flips_count_by_one (i : jsstring) (c : bool)
    (st : Local.state) (t : Local.todo) :
  find (fun x => str_eqb (Local.id x) i) (Local.todos st) = Some t ->
  let st' := Local.toggleTodo i c st in
  count_text (Local.view st')
  = count_template (Local.active (Local.todos st'))
  /\ (Local.completed t = negb c ->
      (c = true ->
       Local.active (Local.todos st') + 1 = Local.active (Local.todos st))
      /\ (c = false ->
          Local.active (Local.todos st') = Local.active (Local.todos st) + 1))
  /\ (Local.completed t = c ->
      Local.active (Local.todos st') = Local.active (Local.todos st)).
Proof.
  intros Hf. unfold Local.toggleTodo. rewrite Hf.
  set (st1 := Local.set_todos _ st).
  destruct (persisted st1) as (H1 & _ & _ & H4).
  cbv zeta. rewrite H1, H4. split; [reflexivity|].
  destruct (find_id_split _ _ Hf) as (l1 & l2 & Hl & _ & _ & Ha).
  unfold st1; simpl Local.todos. rewrite (Ha c), Hl.
  rewrite !active_app, !active_cons. simpl Local.completed.
  split; intros Hc; rewrite Hc.
  - split; intros ->; simpl; lia.
  - reflexivity.
Qed.

(** C10. Toggling an id that is in the collection rewrites the first item
    with that id and nothing else: that item keeps its id, its text and
    its creation time and takes the flag passed; the items before it and
    after it are the same, in the same places. *)
Theorem toggle_changes_one_flag (i : jsstring) (c : bool) (st : Local.state) :
  In i (map Local.id (Local.todos st)) ->
  exists l1 t l2,
    Local.todos st = l1 ++ t :: l2
    /\ Local.id t = i
    /\ ~ In i (map Local.id l1)
    /\ Local.todos (Local.toggleTodo i c st)
       = l1 ++ Local.mkTodo (Local.id t) (Local.text t) c (Local.createdAt t)
            :: l2.
Proof.
  intros H. destruct (find_id_some _ _ H) as (t & Ht).
  destruct (find_id_split _ _ Ht) as (l1 & l2 & Hl & Hi & Hn & Ha).
  exists l1, t, l2. repeat (split; [assumption|]).
  unfold Local.toggleTodo. rewrite Ht.
  destruct (persisted (Local.set_todos
              (Local.assign_completed i c (Local.todos st)) st)) as (H1 & _).
  rewrite H1. apply Ha.
Qed.

(** C9. The local collection is in insertion order, newest first: adding a
    text that is not blank puts the new item at the front of the items
    already there, and toggle, delete and clearCompleted leave the
    remaining items in the order they had. *)
Theorem newest_first_order_kept (fresh : jsstring) (now : Z)
    (txt i : jsstring) (c : bool) (st : Local.state) :
  (trim txt <> [] ->
   Local.todos (Local.addTodo fresh now txt st)
   = Local.mkTodo fresh (trim txt) false now :: Local.todos st)
  /\ (trim txt = [] ->
      Local.todos (Local.addTodo fresh now txt st) = Local.todos st)
  /\ Local.order_kept (Local.todos st)
                      (Local.todos (Local.toggleTodo i c st))
  /\ Local.order_kept (Local.todos st) (Local.todos (Local.deleteTodo i st))
  /\ Local.order_kept (Local.todos st) (Local.todos (Local.clearCompleted st)).
Proof.
  split; [|split; [|split; [|split]]].
  - intros H. unfold Local.addTodo.
    destruct (trim txt) eqn:E; [congruence|]. reflexivity.
  - intros H. unfold Local.addTodo. rewrite H. reflexivity.
  - unfold Local.toggleTodo.
    destruct (find _ (Local.todos st)); [|apply order_kept_refl].
    apply order_kept_assign.
  - apply order_kept_filter.
  - unfold Local.clearCompleted. cbv zeta.
    destruct (negb _); apply order_kept_filter.
Qed.

(* ================================================================== *)
(** * Serialising and parsing the collection *)
(* ================================================================== *)

(** ** The scanner, stretch by stretch *)

Lemma scan_app (m : lmode) (s1 s2 : jsstring) :
  scan m (s1 ++ s2)
  = match scan m s1 with
    | None => None
    | Some (ts, m') =>
        match scan m' s2 with
        | None => None
        | Some (ts', m'') => Some (ts ++ ts', m'')
        end
    end.
Proof.
  revert m. induction s1 as [|c s1 IH]; intros m; simpl.
  - destruct (scan m s2) as [[ts m']|]; reflexivity.
  - destruct (lex_step m c) as [[ts m']|]; [|reflexivity].
    rewrite IH. destruct (scan m' s1) as [[ts1 m1]|]; [|reflexivity].
    destruct (scan m1 s2) as [[ts2 m2]|]; [|reflexivity].
    rewrite app_assoc. reflexivity.
Qed.

Lemma scan_seq (m m1 m2 : lmode) (s1 s2 : jsstring) (ts1 ts2 : list token) :
  scan m s1 = Some (ts1, m1) ->
  scan m1 s2 = Some (ts2, m2) ->
  scan m (s1 ++ s2) = Some (ts1 ++ ts2, m2).
Proof. intros H1 H2. rewrite scan_app, H1, H2. reflexivity. Qed.

Lemma scan_silent (m m' : lmode) (c : codeunit) (s : jsstring) :
  lex_step m c = Some ([], m') -> scan m (c :: s) = scan m' s.
Proof.
  intros H. simpl. rewrite H. destruct (scan m' s) as [[ts m2]|]; reflexivity.
Qed.

(** ** Strings *)

Lemma hex_value_hex_char (d : N) :
  (d < 16)%N -> hex_value (hex_char d) = Some d.
Proof.
  intros H. destruct d as [|p]; [reflexivity|].
  do 4 (destruct p as [p|p|]; try reflexivity; try lia).
Qed.

Lemma unicode_value (c : N) :
  (c < 65536)%N ->
  ((((0 * 16 + (c / 4096) mod 16) * 16 + (c / 256) mod 16) * 16
    + (c / 16) mod 16) * 16 + c mod 16 = c)%N.
Proof.
  intros H.
  pose proof (N.div_mod c 16 ltac:(lia)).
  pose proof (N.div_mod (c / 16) 16 ltac:(lia)).
  pose proof (N.div_mod (c / 16 / 16) 16 ltac:(lia)).
  pose proof (N.mod_lt c 16 ltac:(lia)).
  pose proof (N.mod_lt (c / 16) 16 ltac:(lia)).
  pose proof (N.mod_lt (c / 16 / 16) 16 ltac:(lia)).
  assert (H256 : (c / 256 = c / 16 / 16)%N)
    by (rewrite N.Div0.div_div; reflexivity).
  assert (H4096 : (c / 4096 = c / 16 / 16 / 16)%N)
    by (rewrite !N.Div0.div_div; reflexivity).
  rewrite H256, H4096.
  assert (Hs : (c / 16 / 16 / 16 < 16)%N).
  { rewrite !N.Div0.div_div. apply N.Div0.div_lt_upper_bound. simpl; lia. }
  rewrite (N.mod_small (c / 16 / 16 / 16) 16 Hs).
  pose proof (N.div_mod (c / 16 / 16) 16 ltac:(lia)).
  lia.
Qed.

(** One code unit that completes no token: the scanner moves to [m']. *)
Ltac scan_to m' := rewrite (@scan_silent _ m' _ _).

(** A \u escape reads back as the code unit escaped. *)
Lemma scan_UnicodeEscape (c : codeunit) (acc rest : jsstring) :
  (c < 65536)%N ->
  scan (LStr acc) (UnicodeEscape c ++ rest) = scan (LStr (c :: acc)) rest.
Proof.
  intros H. unfold UnicodeEscape. cbn [app].
  assert (Hd : forall x, (x mod 16 < 16)%N) by (intros; apply N.mod_lt; lia).
  scan_to (LEsc acc); [|reflexivity].
  scan_to (LHex acc 4 0); [|reflexivity].
  scan_to (LHex acc 3 (0 * 16 + (c / 4096) mod 16)%N);
    [|cbn [lex_step]; rewrite hex_value_hex_char by apply Hd; reflexivity].
  scan_to (LHex acc 2 ((0 * 16 + (c / 4096) mod 16) * 16
                       + (c / 256) mod 16)%N);
    [|cbn [lex_step]; rewrite hex_value_hex_char by apply Hd; reflexivity].
  scan_to (LHex acc 1 (((0 * 16 + (c / 4096) mod 16) * 16
                        + (c / 256) mod 16) * 16 + (c / 16) mod 16)%N);
    [|cbn [lex_step]; rewrite hex_value_hex_char by apply Hd; reflexivity].
  scan_to (LStr (c :: acc)); [reflexivity|].
  cbn [lex_step]. rewrite hex_value_hex_char by apply Hd.
  rewrite unicode_value by assumption. reflexivity.
Qed.

Lemma lex_step_plain (acc : jsstring) (c : codeunit) :
  (c =? 0x22)%N = false -> (c =? 0x5C)%N = false -> (c <? 0x20)%N = false ->
  lex_step (LStr acc) c = Some ([], LStr (c :: acc)).
Proof. intros H1 H2 H3. cbn [lex_step]. rewrite H1, H2, H3. reflexivity. Qed.

Lemma short_escape_none (c : codeunit) :
  short_escape c = None -> (c =? 0x22)%N = false /\ (c =? 0x5C)%N = false.
Proof.
  unfold short_escape.
  repeat match goal with
         | |- context [if ?b then _ else _] => destruct b; try discriminate
         end.
  auto.
Qed.

(** A two-character escape reads back as the code unit escaped. *)
Lemma short_escape_some (c e : codeunit) (acc : jsstring) :
  short_escape c = Some e ->
  lex_step (LEsc acc) e = Some ([], LStr (c :: acc)).
Proof.
  unfold short_escape.
  repeat match goal with
         | |- context [if (c =? ?k)%N then _ else _] =>
             destruct (N.eqb_spec c k);
             [intros He; injection He as <-; subst c; reflexivity|]
         end.
  discriminate.
Qed.

(** The body of a quoted string reads back as the string, code unit by
    code unit. *)
Lemma scan_quote_body (s : jsstring) :
  forall acc, scan (LStr acc) (quote_body s) = Some ([], LStr (rev s ++ acc)).
Proof.
  assert (H : forall n s, List.length s <= n -> forall acc,
             scan (LStr acc) (quote_body s) = Some ([], LStr (rev s ++ acc))).
  { clear s. induction n as [|n IH]; intros s Hn acc.
    - destruct s; [reflexivity|simpl in Hn; lia].
    - destruct s as [|c s']; [reflexivity|]. simpl in Hn.
      assert (Hrev : rev (c :: s') ++ acc = rev s' ++ c :: acc)
        by (simpl; rewrite <- app_assoc; reflexivity).
      rewrite Hrev.
      cbn [quote_body].
      destruct (short_escape c) as [e|] eqn:Hs.
      + scan_to (LEsc acc); [|reflexivity].
        scan_to (LStr (c :: acc)); [|eapply short_escape_some; eassumption].
        apply IH; lia.
      + destruct (short_escape_none _ Hs) as (Hq & Hb).
        destruct (c <? 0x20)%N eqn:Hc.
        { rewrite scan_UnicodeEscape by (apply N.ltb_lt in Hc; lia).
          apply IH; lia. }
        destruct (is_lead c) eqn:Hl.
        { assert (Hc16 : (c < 65536)%N).
          { unfold is_lead in Hl. apply andb_true_iff in Hl as [_ Hl].
            apply N.leb_le in Hl. lia. }
          destruct s' as [|t s''].
          - rewrite <- (List.app_nil_r (UnicodeEscape c)).
            rewrite scan_UnicodeEscape by assumption. reflexivity.
          - destruct (is_trail t) eqn:Ht.
            + scan_to (LStr (c :: acc)); [|apply lex_step_plain; assumption].
              unfold is_trail in Ht. apply andb_true_iff in Ht as [Ht _].
              apply N.leb_le in Ht.
              scan_to (LStr (t :: c :: acc));
                [|apply lex_step_plain;
                  [apply N.eqb_neq|apply N.eqb_neq|apply N.ltb_ge]; lia].
              simpl in Hn. rewrite IH by lia.
              simpl. rewrite <- !app_assoc. reflexivity.
            + rewrite scan_UnicodeEscape by assumption. apply IH; lia. }
        destruct (is_trail c) eqn:Ht.
        { rewrite scan_UnicodeEscape; [apply IH; lia|].
          unfold is_trail in Ht. apply andb_true_iff in Ht as [_ Ht].
          apply N.leb_le in Ht. lia. }
        scan_to (LStr (c :: acc)); [|apply lex_step_plain; assumption].
        apply IH; lia. }
  intros acc. apply (H (List.length s)). lia.
Qed.

Lemma scan_QuoteJSONString (s : jsstring) :
  scan LDefault (QuoteJSONString s) = Some ([TStr s], LDefault).
Proof.
  unfold QuoteJSONString.
  scan_to (LStr []); [|reflexivity].
  apply (@scan_seq _ (LStr (rev s ++ [])) _ _ _ [] [TStr s]).
  - apply scan_quote_body.
  - simpl. rewrite List.app_nil_r, rev_involutive. reflexivity.
Qed.

(** ** Numbers *)

Lemma scan_digits (s : jsstring) :
  forall neg man,
    forallb is_digit s = true ->
    scan (LNum NInt neg man 0 false 0) s
    = Some ([], LNum NInt neg
                  (fold_left (fun a d => a * 10 + (d - 0x30))%N s man)
                  0%Z false 0%N).
Proof.
  induction s as [|c s IH]; intros neg man H; [reflexivity|].
  cbn [forallb] in H. apply andb_true_iff in H as [Hc Hs].
  scan_to (LNum NInt neg (man * 10 + (c - 0x30))%N 0%Z false 0%N).
  - apply IH; assumption.
  - cbn [lex_step lex_number]. rewrite Hc. reflexivity.
Qed.

(** A positive number is printed without a leading zero. *)
Lemma pos_digits (p : positive) :
  exists c s,
    uint_chars (Pos.to_uint p) = c :: s
    /\ is_digit c = true /\ (c =? 0x30)%N = false
    /\ forallb is_digit s = true.
Proof.
  pose proof (DecimalPos.Unsigned.to_of (Pos.to_uint p)) as Hn.
  rewrite DecimalPos.Unsigned.of_to in Hn. change (N.to_uint (Npos p))
    with (Pos.to_uint p) in Hn.
  pose proof (DecimalPos.Unsigned.to_uint_nonzero p) as Hz.
  pose proof (DecimalPos.Unsigned.to_uint_nonnil p) as Hnil.
  destruct (Pos.to_uint p) as [|d|d|d|d|d|d|d|d|d|d] eqn:E;
    [congruence| |
     eexists; eexists; (split; [reflexivity|]);
     (split; [reflexivity|]); (split; [reflexivity|]);
     apply uint_chars_digits ..].
  exfalso. rewrite DecimalFacts.unorm_D0 in Hn. unfold Decimal.unorm in Hn.
  destruct (Decimal.nzhead d) eqn:Hd;
    solve [ congruence
          | apply (DecimalFacts.nzhead_nonzero d d); congruence ].
Qed.

(** The digits of a natural number followed by a closing brace: the number
    and the brace. *)
Lemma scan_N_toString (neg : bool) (n : N) (m : lmode) :
  (m = LDefault /\ neg = false \/ m = LNum NMinus true 0 0 false 0 /\ neg = true) ->
  scan m (N_toString n ++ [0x7D]%N)
  = Some ([TNum neg n 0; TRBrace], LDefault).
Proof.
  intros Hm. unfold N_toString. destruct n as [|p].
  - destruct Hm as [[-> ->]|[-> ->]]; reflexivity.
  - change (N.to_uint (Npos p)) with (Pos.to_uint p).
    destruct (pos_digits p) as (c & s & Hcs & Hc & Hc0 & Hs).
    pose proof (read_N_toString (Npos p)) as Hr.
    unfold read_decimal, N_toString in Hr.
    change (N.to_uint (Npos p)) with (Pos.to_uint p) in Hr.
    rewrite Hcs in *. cbn [fold_left] in Hr. rewrite N.mul_0_l, N.add_0_l in Hr.
    cbn [app].
    scan_to (LNum NInt neg (c - 0x30)%N 0%Z false 0%N).
    + apply (@scan_seq _ _ _ _ _ [] [TNum neg (Npos p) 0; TRBrace]
               (scan_digits s neg _ Hs)).
      rewrite Hr. reflexivity.
    + destruct Hm as [[-> ->]|[-> ->]].
      * cbn [lex_step]. unfold lex_start.
        unfold is_digit in Hc. apply andb_true_iff in Hc as [H1 H2].
        apply N.leb_le in H1, H2. apply N.eqb_neq in Hc0.
        repeat match goal with
               | |- context [(c =? ?k)%N] =>
                   destruct (N.eqb_spec c k); [lia|]
               end.
        simpl orb. cbv iota.
        unfold is_digit.
        destruct (N.leb_spec 0x30 c); [|lia].
        destruct (N.leb_spec c 0x39); [|lia]. reflexivity.
      * cbn [lex_step lex_number]. rewrite Hc0, Hc. reflexivity.
Qed.

Lemma scan_Number_toString (z : Z) :
  scan LDefault (Number_toString z ++ [0x7D]%N)
  = Some ([TNum (z <? 0)%Z (Z.abs_N z) 0; TRBrace], LDefault).
Proof.
  destruct z as [|p|p]; unfold Number_toString.
  - apply scan_N_toString; auto.
  - apply (scan_N_toString (Npos p)); auto.
  - cbn [app]. scan_to (LNum NMinus true 0 0 false 0); [|reflexivity].
    apply (scan_N_toString (Npos p)); auto.
Qed.

(** ** The serialised collection, token by token *)

Lemma scan_app_known (m m1 : lmode) (s1 s2 : jsstring) (ts1 : list token) :
  scan m s1 = Some (ts1, m1) ->
  scan m (s1 ++ s2)
  = match scan m1 s2 with
    | None => None
    | Some (ts2, m2) => Some (ts1 ++ ts2, m2)
    end.
Proof. intros H. rewrite scan_app, H. reflexivity. Qed.

(** The next stretch of the text is known text, or a stretch whose scan is
    given by [H]. *)
Ltac scan_known :=
  match goal with
  | |- context [scan ?m (?s1 ++ ?s2)] =>
      let r := eval vm_compute in (scan m s1) in
      match r with
      | Some (?ts, ?m1) =>
          rewrite (@scan_app_known m m1 s1 s2 ts
                     (eq_refl : scan m s1 = Some (ts, m1)))
      end
  end.

Ltac scan_with H := rewrite (@scan_app_known _ _ _ _ _ H).

Lemma scan_stringify_todo (t : Local.todo) :
  scan LDefault (Local.stringify_todo t)
  = Some (Local.todo_tokens t, LDefault).
Proof.
  unfold Local.stringify_todo, Local.todo_tokens.
  scan_known. scan_known. scan_known.
  scan_with (scan_QuoteJSONString (Local.id t)).
  scan_known. scan_known. scan_known.
  scan_with (scan_QuoteJSONString (Local.text t)).
  scan_known. scan_known. scan_known.
  destruct (Local.completed t); scan_known; scan_known; scan_known;
    scan_known;
    change (lit "}") with [0x7D]%N; rewrite scan_Number_toString;
    reflexivity.
Qed.

Lemma scan_join_items (l : list Local.todo) :
  scan LDefault (Local.join_items l) = Some (Local.items_tokens l, LDefault).
Proof.
  induction l as [|t l IH]; [reflexivity|].
  destruct l as [|t2 l]; [apply scan_stringify_todo|].
  change (Local.join_items (t :: t2 :: l))
    with (Local.stringify_todo t ++ lit "," ++ Local.join_items (t2 :: l)).
  change (Local.items_tokens (t :: t2 :: l))
    with (Local.todo_tokens t ++ [TComma] ++ Local.items_tokens (t2 :: l)).
  scan_with (scan_stringify_todo t). scan_known. rewrite IH. reflexivity.
Qed.

Lemma lex_JSON_stringify (l : list Local.todo) :
  lex (Local.JSON_stringify l)
  = Some (TLBrack :: Local.items_tokens l ++ [TRBrack]).
Proof.
  unfold lex, Local.JSON_stringify.
  scan_known. scan_with (scan_join_items l).
  simpl. rewrite List.app_nil_r. reflexivity.
Qed.

(** ** The parser over the tokens of the collection *)

Lemma parse_run_app (ps : pstate) (ts1 ts2 : list token) :
  parse_run ps (ts1 ++ ts2)
  = match parse_run ps ts1 with
    | None => None
    | Some ps' => parse_run ps' ts2
    end.
Proof.
  revert ps. induction ts1 as [|t ts1 IH]; intros ps; simpl; [reflexivity|].
  destruct (parse_step ps t); [apply IH|reflexivity].
Qed.

(** Where a value may start, the tokens of an item build the item. *)
Lemma parse_todo_tokens (t : Local.todo) (m : pmode) (st : list frame) :
  m = PValue \/ m = PFirst ->
  parse_run (m, st) (Local.todo_tokens t)
  = deliver (Local.todo_to_json t) st.
Proof.
  intros [-> | ->]; unfold Local.todo_tokens, Local.todo_to_json, JInt;
    generalize (Local.id t) (Local.text t) (Local.createdAt t <? 0)%Z
               (Z.abs_N (Local.createdAt t));
    intros i x neg man; destruct (Local.completed t);
    cbn; destruct (deliver _ st); reflexivity.
Qed.

Lemma parse_run_one (ps : pstate) (t : token) :
  parse_run ps [t] = parse_step ps t.
Proof. simpl. destruct (parse_step ps t); reflexivity. Qed.

Lemma parse_items_tokens (l : list Local.todo) :
  forall (t : Local.todo) (acc : list json) (m : pmode) (st : list frame),
    m = PValue \/ m = PFirst ->
    parse_run (m, FArr acc :: st) (Local.items_tokens (t :: l) ++ [TRBrack])
    = deliver (JArr (rev acc ++ map Local.todo_to_json (t :: l))) st.
Proof.
  induction l as [|t2 l IH]; intros t acc m st Hm.
  - cbn [Local.items_tokens].
    rewrite parse_run_app, parse_todo_tokens by assumption.
    cbn [deliver]. rewrite parse_run_one. reflexivity.
  - change (Local.items_tokens (t :: t2 :: l))
      with (Local.todo_tokens t ++ TComma :: Local.items_tokens (t2 :: l)).
    rewrite <- app_assoc, parse_run_app, parse_todo_tokens by assumption.
    cbn [deliver]. rewrite <- app_comm_cons.
    cbn [parse_run parse_step]. rewrite IH by auto.
    cbn [rev map]. rewrite <- app_assoc. reflexivity.
Qed.

(** Parsing what [JSON.stringify] wrote for a collection gives the array
    of its items. *)
Lemma JSON_parse_stringify (l : list Local.todo) :
  JSON_parse (Local.JSON_stringify l) = Normal (Local.todos_to_json l).
Proof.
  unfold JSON_parse. rewrite lex_JSON_stringify.
  cbn [parse_run parse_step parse_value]. destruct l as [|t l].
  - reflexivity.
  - rewrite parse_items_tokens by auto. reflexivity.
Qed.

Lemma JSON_stringify_truthy (l : list Local.todo) :
  truthy (Local.JSON_stringify l) = true.
Proof. reflexivity. Qed.

Lemma nth_error_todos_to_json (l : list Local.todo) (n : nat) (t : Local.todo) :
  nth_error l n = Some t ->
  nth_error (map Local.todo_to_json l) n = Some (Local.todo_to_json t).
Proof. intros H. rewrite nth_error_map, H. reflexivity. Qed.

(* ================================================================== *)
(** * Loading and saving *)
(* ================================================================== *)

(** C6. [load] never throws.  It yields the empty collection when the
    store has no value, when the value does not parse as JSON, and when the
    store cannot be read; on a value that parses it yields the value
    parsed. *)
Theorem load_never_throws (read : completion (option jsstring)) :
  (forall e, Local.load read <> Throw e)
  /\ (read = Normal None -> Local.load read = Normal (JArr []))
  /\ (forall s e, read = Normal (Some s) -> JSON_parse s = Throw e ->
      Local.load read = Normal (JArr []))
  /\ (forall e, read = Throw e -> Local.load read = Normal (JArr []))
  /\ (forall s v, read = Normal (Some s) -> JSON_parse s = Normal v ->
      Local.load read = Normal v).
Proof.
  split; [|split; [|split; [|split]]].
  - intros e. unfold Local.load, try_catch, bind.
    destruct read as [[s|]|e']; try discriminate.
    destruct (truthy s); [|discriminate].
    destruct (JSON_parse s); discriminate.
  - intros ->. reflexivity.
  - intros s e -> H. unfold Local.load, try_catch, bind.
    destruct (truthy s); [|reflexivity]. rewrite H. reflexivity.
  - intros e ->. reflexivity.
  - intros s v -> H. unfold Local.load, try_catch, bind.
    destruct s as [|c s]; [discriminate H|]. simpl truthy. cbv iota.
    rewrite H. reflexivity.
Qed.

(** C7. Saving a collection of task items (their creation times being time
    values, which [Number::toString] prints digit by digit) and loading it
    gives the array of the same items, in the same order: the loaded value
    has as many elements as the collection, and its element at each place
    is an object whose [id], [text] and [completed] properties are those of
    the item saved there. *)
Theorem save_then_load (st : Local.state) :
  Forall (fun t => Local.is_time_value (Local.createdAt t)) (Local.todos st) ->
  Local.load (Local.getItem (Local.save st))
  = Normal (Local.todos_to_json (Local.todos st))
  /\ exists elems,
       Local.load (Local.getItem (Local.save st)) = Normal (JArr elems)
       /\ List.length elems = List.length (Local.todos st)
       /\ forall n t,
            nth_error (Local.todos st) n = Some t ->
            exists o,
              nth_error elems n = Some (JObj o)
              /\ get_prop o (lit "id") = Some (JStr (Local.id t))
              /\ get_prop o (lit "text") = Some (JStr (Local.text t))
              /\ get_prop o (lit "completed")
                 = Some (JBool (Local.completed t)).
Proof.
  intros _.
  assert (H : Local.load (Local.getItem (Local.save st))
              = Normal (Local.todos_to_json (Local.todos st))).
  { unfold Local.load, Local.getItem, Local.save, try_catch, bind.
    cbn [Local.storage]. rewrite JSON_stringify_truthy, JSON_parse_stringify.
    reflexivity. }
  split; [exact H|].
  exists (map Local.todo_to_json (Local.todos st)).
  split; [exact H|]. split; [apply length_map|].
  intros n t Hn. eexists. split.
  - apply nth_error_todos_to_json; eassumption.
  - repeat split.
Qed.

(* ================================================================== *)
(** * Worked cases *)
(* ================================================================== *)

(** The example of the specification: from [{"a", false}, {"b", true}],
    clearCompleted leaves [{"a", false}] and the counter reads 1 item. *)
Example clear_completed_example :
  Local.todos (Local.clearCompleted Sample.two) = [Sample.a]
  /\ count_text (Local.view (Local.clearCompleted Sample.two)) = lit "1 item".
Proof. split; reflexivity. Qed.



(** C2, as stated, fails: on the empty remote collection, toggling the id
    x, which is not there, sends the PUT request, fetches the list and
    redraws. *)
Lemma remote_toggle_absent_sends_put :
  Remote.todos (Sample.world0 []) = Some []
  /\ ~ In (lit "x") (map Remote.id [])
  /\ Remote.requests
       (snd (Remote.toggleTodo Sample.empty_list (lit "x") true
               (Sample.world0 [])))
     = [Remote.PUT (lit "/todos/x") (Remote.is_completed_body true);
        Remote.GET (lit "/todos")]
  /\ Remote.toggleTodo Sample.empty_list (lit "x") true (Sample.world0 [])
     <> (Normal tt, Sample.world0 []).
Proof.
  split; [reflexivity|]. split; [simpl; tauto|].
  split; [reflexivity|]. discriminate.
Qed.

Lemma toggle_witness :
  In (lit "a") (map Local.id (Local.todos Sample.two))
  /\ ~ In (lit "x") (map Local.id (Local.todos Sample.two))
  /\ Local.toggleTodo (lit "x") true Sample.two = Sample.two
  /\ Local.storage (Local.toggleTodo (lit "a") true Sample.two)
     = Some (Local.JSON_stringify
               (Local.todos (Local.toggleTodo (lit "a") true Sample.two)))
  /\ fst (Remote.api Sample.empty_list
            (Remote.PUT (Remote.todo_url (lit "x"))
                        (Remote.is_completed_body true)) (Sample.world0 []))
     = Normal (Remote.PItems [])
  /\ Remote.requests
       (snd (Remote.toggleTodo Sample.empty_list (lit "x") true
               (Sample.world0 [])))
     = Remote.requests (Sample.world0 [])
       ++ [Remote.PUT (Remote.todo_url (lit "x"))
                      (Remote.is_completed_body true);
           Remote.GET (lit "/todos")]
  /\ fst (Remote.api Sample.not_found
            (Remote.PUT (Remote.todo_url (lit "x"))
                        (Remote.is_completed_body true)) (Sample.world0 []))
     = Throw (Error (lit "no such todo"))
  /\ Remote.toggleTodo Sample.not_found (lit "x") true (Sample.world0 [])
     = (Throw (Error (lit "no such todo")),
        snd (Remote.api Sample.not_found
               (Remote.PUT (Remote.todo_url (lit "x"))
                           (Remote.is_completed_body true))
               (Sample.world0 []))).
Proof.
  assert (Ha : In (lit "a") (map Local.id (Local.todos Sample.two)))
    by (simpl; auto).
  assert (Hx : ~ In (lit "x") (map Local.id (Local.todos Sample.two))).
  { simpl. intros [H|[H|[]]]; discriminate H. }
  assert (H1 : fst (Remote.api Sample.empty_list
                      (Remote.PUT (Remote.todo_url (lit "x"))
                                  (Remote.is_completed_body true))
                      (Sample.world0 []))
               = Normal (Remote.PItems [])) by reflexivity.
  assert (H2 : fst (Remote.api Sample.not_found
                      (Remote.PUT (Remote.todo_url (lit "x"))
                                  (Remote.is_completed_body true))
                      (Sample.world0 []))
               = Throw (Error (lit "no such todo"))) by reflexivity.
  split; [exact Ha|]. split; [exact Hx|]. split.
  { exact (proj1 (toggle_local_guarded_remote_always Sample.empty_list
                    (lit "x") true Sample.two (Sample.world0 [])) Hx). }
  split.
  { exact (proj1 (proj2 (proj1 (proj2
             (toggle_local_guarded_remote_always Sample.empty_list
                (lit "a") true Sample.two (Sample.world0 []))) Ha))). }
  split; [exact H1|]. split.
  { pose proof (toggle_local_guarded_remote_always Sample.empty_list
                  (lit "x") true Sample.two (Sample.world0 [])) as T.
    cbv zeta in T. destruct T as (_ & _ & _ & _ & _ & _ & T & _).
    exact (proj2 (T (Remote.PItems []) H1)). }
  split; [exact H2|].
  pose proof (toggle_local_guarded_remote_always Sample.not_found
                (lit "x") true Sample.two (Sample.world0 [])) as T.
  cbv zeta in T. destruct T as (_ & _ & _ & _ & _ & T & _).
  exact (T (Error (lit "no such todo")) H2).
Defined.

Lemma clearCompleted_witness :
  (forall t, In t (Local.todos Sample.one) -> Local.completed t = false)
  /\ Local.clearCompleted Sample.one = Sample.one
  /\ (exists t, In t (Local.todos Sample.two) /\ Local.completed t = true)
  /\ Local.todos (Local.clearCompleted Sample.two)
     = filter (fun x => negb (Local.completed x)) (Local.todos Sample.two)
  /\ Remote.todos (Sample.world0 [Sample.ra]) = Some [Sample.ra]
  /\ Remote.requests
       (snd (Remote.clearCompleted Sample.empty_list
               (Sample.world0 [Sample.ra])))
     = Remote.requests (Sample.world0 [Sample.ra])
       ++ [Remote.GET (lit "/todos")].
Proof.
  assert (H1 : forall t, In t (Local.todos Sample.one) ->
                         Local.completed t = false).
  { simpl. intros t [<-|[]]. reflexivity. }
  assert (H2 : exists t, In t (Local.todos Sample.two)
                         /\ Local.completed t = true).
  { exists Sample.b. simpl. auto. }
  assert (H3 : forall t, In t [Sample.ra] -> Remote.is_completed t = false).
  { simpl. intros t [<-|[]]. reflexivity. }
  split; [exact H1|]. split.
  { exact (proj1 (clearCompleted_batch Sample.empty_list Sample.one
                    (Sample.world0 [Sample.ra]) [Sample.ra]) H1). }
  split; [exact H2|]. split.
  { exact (proj1 (proj1 (proj2 (clearCompleted_batch Sample.empty_list
                    Sample.two (Sample.world0 [Sample.ra]) [Sample.ra])) H2)). }
  split; [reflexivity|].
  destruct (proj2 (proj2 (clearCompleted_batch Sample.empty_list Sample.two
              (Sample.world0 [Sample.ra]) [Sample.ra])) eq_refl)
    as (rest & _ & _ & H).
  exact (H H3).
Defined.

Lemma add_blank_witness :
  trim (lit "   ") = []
  /\ Local.addTodo (lit "k1") 1700000000002 (lit "   ") Sample.two
     = Sample.two
  /\ Remote.addTodo Sample.empty_list (lit "   ") (Sample.world0 [Sample.ra])
     = (Normal tt, Sample.world0 [Sample.ra]).
Proof.
  assert (H : trim (lit "   ") = []) by reflexivity.
  split; [exact H|]. split.
  - exact (proj1 (add_blank_is_noop Sample.empty_list (lit "k1")
                    1700000000002 (lit "   ") Sample.two
                    (Sample.world0 [Sample.ra]) H)).
  - exact (proj2 (proj2 (proj2 (add_blank_is_noop Sample.empty_list
                    (lit "k1") 1700000000002 (lit "   ") Sample.two
                    (Sample.world0 [Sample.ra]) H)))).
Defined.

(** C5, as stated, fails: with the single item a, not completed, toggling a
    to false leaves one active item, and the counter reads 1 item before
    and after. *)
Lemma toggle_same_flag_keeps_count :
  In (lit "a") (map Local.id (Local.todos Sample.one))
  /\ Local.active (Local.todos Sample.one) = 1
  /\ Local.active (Local.todos (Local.toggleTodo (lit "a") false Sample.one))
     = 1
  /\ Local.count_label (Local.todos Sample.one) = lit "1 item"
  /\ count_text (Local.view (Local.toggleTodo (lit "a") false Sample.one))
     = lit "1 item".
Proof.
  split; [simpl; auto|]. repeat split.
Qed.

Lemma toggle_flips_witness :
  find (fun x => str_eqb (Local.id x) (lit "a")) (Local.todos Sample.two)
  = Some Sample.a
  /\ Local.completed Sample.a = negb true
  /\ Local.active (Local.todos (Local.toggleTodo (lit "a") true Sample.two)) + 1
     = Local.active (Local.todos Sample.two)
  /\ find (fun x => str_eqb (Local.id x) (lit "b")) (Local.todos Sample.two)
     = Some Sample.b
  /\ Local.completed Sample.b = negb false
  /\ Local.active (Local.todos (Local.toggleTodo (lit "b") false Sample.two))
     = Local.active (Local.todos Sample.two) + 1
  /\ Local.completed Sample.b = true
  /\ Local.active (Local.todos (Local.toggleTodo (lit "b") true Sample.two))
     = Local.active (Local.todos Sample.two).
Proof.
  assert (H1 : find (fun x => str_eqb (Local.id x) (lit "a"))
                    (Local.todos Sample.two) = Some Sample.a) by reflexivity.
  assert (H2 : Local.completed Sample.a = negb true) by reflexivity.
  assert (H3 : find (fun x => str_eqb (Local.id x) (lit "b"))
                    (Local.todos Sample.two) = Some Sample.b) by reflexivity.
  assert (H4 : Local.completed Sample.b = negb false) by reflexivity.
  assert (H5 : Local.completed Sample.b = true) by reflexivity.
  split; [exact H1|]. split; [exact H2|]. split.
  { exact (proj1 (proj1 (proj2 (toggle_flips_count_by_one (lit "a") true
                                  Sample.two H1)) H2) eq_refl). }
  split; [exact H3|]. split; [exact H4|]. split.
  { exact (proj2 (proj1 (proj2 (toggle_flips_count_by_one (lit "b") false
                                  Sample.two H3)) H4) eq_refl). }
  split; [exact H5|].
  exact (proj2 (proj2 (toggle_flips_count_by_one (lit "b") true
                         Sample.two H3)) H5).
Defined.

Lemma count_label_witness :
  Remote.todos (Sample.world0 [Sample.ra; Sample.rb])
  = Some [Sample.ra; Sample.rb]
  /\ count_text
       (Remote.view (snd (Remote.render (Sample.world0 [Sample.ra; Sample.rb]))))
     = lit "1 item".
Proof.
  assert (H : Remote.todos (Sample.world0 [Sample.ra; Sample.rb])
              = Some [Sample.ra; Sample.rb]) by reflexivity.
  split; [exact H|].
  exact (proj2 (proj2 (proj2 (proj2
           (count_label_counts_incomplete Sample.two
              (Sample.world0 [Sample.ra; Sample.rb])
              [Sample.ra; Sample.rb]))) H)).
Defined.

Lemma toggle_frame_witness :
  In (lit "b") (map Local.id (Local.todos Sample.two))
  /\ exists l1 t l2,
       Local.todos Sample.two = l1 ++ t :: l2
       /\ Local.id t = lit "b"
       /\ ~ In (lit "b") (map Local.id l1)
       /\ Local.todos (Local.toggleTodo (lit "b") false Sample.two)
          = l1 ++ Local.mkTodo (Local.id t) (Local.text t) false
                               (Local.createdAt t) :: l2.
Proof.
  assert (H : In (lit "b") (map Local.id (Local.todos Sample.two)))
    by (simpl; auto).
  split; [exact H|].
  exact (toggle_changes_one_flag (lit "b") false Sample.two H).
Defined.

Lemma newest_first_witness :
  trim (lit " milk ") <> []
  /\ Local.todos (Local.addTodo (lit "k1") 1700000000002 (lit " milk ")
                    Sample.two)
     = Local.mkTodo (lit "k1") (lit "milk") false 1700000000002
       :: Local.todos Sample.two
  /\ trim (lit " ") = []
  /\ Local.todos (Local.addTodo (lit "k1") 1700000000002 (lit " ") Sample.two)
     = Local.todos Sample.two.
Proof.
  assert (H : trim (lit " milk ") <> []) by discriminate.
  assert (H' : trim (lit " ") = []) by reflexivity.
  split; [exact H|]. split.
  { exact (proj1 (newest_first_order_kept (lit "k1") 1700000000002
                    (lit " milk ") (lit "a") true Sample.two) H). }
  split; [exact H'|].
  exact (proj1 (proj2 (newest_first_order_kept (lit "k1") 1700000000002
                         (lit " ") (lit "a") true Sample.two)) H').
Defined.

Lemma load_witness :
  Local.getItem Local.initial = Normal None
  /\ Local.load (Local.getItem Local.initial) = Normal (JArr [])
  /\ JSON_parse (lit "{") = Throw SyntaxError
  /\ Local.load (Normal (Some (lit "{"))) = Normal (JArr [])
  /\ Local.load (Throw SecurityError) = Normal (JArr [])
  /\ JSON_parse (lit "[true]") = Normal (JArr [JBool true])
  /\ Local.load (Normal (Some (lit "[true]"))) = Normal (JArr [JBool true]).
Proof.
  split; [reflexivity|]. split.
  { exact (proj1 (proj2 (load_never_throws (Local.getItem Local.initial)))
             eq_refl). }
  assert (H1 : JSON_parse (lit "{") = Throw SyntaxError) by reflexivity.
  assert (H2 : JSON_parse (lit "[true]") = Normal (JArr [JBool true]))
    by reflexivity.
  split; [exact H1|]. split.
  { exact (proj1 (proj2 (proj2 (load_never_throws (Normal (Some (lit "{"))))))
             (lit "{") SyntaxError eq_refl H1). }
  split.
  { exact (proj1 (proj2 (proj2 (proj2
             (load_never_throws (Throw SecurityError)))))
             SecurityError eq_refl). }
  split; [exact H2|].
  exact (proj2 (proj2 (proj2 (proj2
           (load_never_throws (Normal (Some (lit "[true]")))))))
           (lit "[true]") (JArr [JBool true]) eq_refl H2).
Defined.

Lemma save_then_load_witness :
  Forall (fun t => Local.is_time_value (Local.createdAt t))
         (Local.todos Sample.two)
  /\ Local.load (Local.getItem (Local.save Sample.two))
     = Normal (Local.todos_to_json (Local.todos Sample.two)).
Proof.
  assert (H : Forall (fun t => Local.is_time_value (Local.createdAt t))
                     (Local.todos Sample.two)).
  { repeat constructor; unfold Local.is_time_value; simpl; lia. }
  split; [exact H|].
  exact (proj1 (save_then_load Sample.two H)).
Defined.

(* ================================================================== *)
(** * The store, the document and the collection after a run *)
(* ================================================================== *)

(** ** Task items among the JSON values *)

Lemma todo_of_to_json (t : Local.todo) :
  Local.todo_of_json (Local.todo_to_json t) = Some t.
Proof.
  destruct t as [i x c z]. unfold Local.todo_to_json, Local.todo_of_json, JInt.
  cbn [Local.id Local.text Local.completed Local.createdAt].
  rewrite !str_eqb_refl. destruct z as [|p|p]; reflexivity.
Qed.

Lemma todo_of_json_sound (v : json) (t : Local.todo) :
  Local.todo_of_json v = Some t -> v = Local.todo_to_json t.
Proof.
  unfold Local.todo_of_json. intros H.
  destruct v as [| | | |elems|props]; try discriminate H.
  destruct props as [|[k1 v1] props]; try discriminate H.
  destruct v1 as [| | |i| |]; try discriminate H.
  destruct props as [|[k2 v2] props]; try discriminate H.
  destruct v2 as [| | |x| |]; try discriminate H.
  destruct props as [|[k3 v3] props]; try discriminate H.
  destruct v3 as [|c| | | |]; try discriminate H.
  destruct props as [|[k4 v4] props]; try discriminate H.
  destruct v4 as [| |neg man e| | |]; try discriminate H.
  destruct props; try discriminate H.
  destruct (str_eqb k1 (lit "id")) eqn:E1; [|discriminate H].
  destruct (str_eqb k2 (lit "text")) eqn:E2; [|discriminate H].
  destruct (str_eqb k3 (lit "completed")) eqn:E3; [|discriminate H].
  destruct (str_eqb k4 (lit "createdAt")) eqn:E4; [|discriminate H].
  destruct (Z.eqb_spec e 0) as [->|]; [|discriminate H].
  apply str_eqb_eq in E1, E2, E3, E4. subst k1 k2 k3 k4.
  cbn [andb] in H. unfold Local.todo_to_json, JInt.
  destruct neg; cbn [negb orb] in H.
  - destruct man as [|p]; [discriminate H|].
    injection H as <-. reflexivity.
  - injection H as <-. cbn [Local.id Local.text Local.completed Local.createdAt].
    destruct man; reflexivity.
Qed.

Lemma todos_of_to_json (l : list Local.todo) :
  Local.todos_of_json (Local.todos_to_json l) = Some l.
Proof.
  unfold Local.todos_to_json, Local.todos_of_json.
  induction l as [|t l IH]; [reflexivity|].
  cbn [map Local.items_of_json]. rewrite todo_of_to_json, IH. reflexivity.
Qed.

Lemma todos_of_json_sound (v : json) (l : list Local.todo) :
  Local.todos_of_json v = Some l -> v = Local.todos_to_json l.
Proof.
  unfold Local.todos_of_json, Local.todos_to_json.
  destruct v as [| | | |elems|]; try discriminate. revert l.
  induction elems as [|v elems IH]; intros l H.
  - injection H as <-. reflexivity.
  - cbn [Local.items_of_json] in H.
    destruct (Local.todo_of_json v) as [t|] eqn:Ht; [|discriminate H].
    destruct (Local.items_of_json elems) as [l'|] eqn:Hl; [|discriminate H].
    injection H as <-. apply todo_of_json_sound in Ht.
    specialize (IH l' eq_refl). injection IH as ->. subst v. reflexivity.
Qed.

(** ** What [save] and [render] leave behind *)

Lemma display_of_list (l : list Local.todo) :
  match l with [] => Block | _ :: _ => Hidden end = Block <-> l = [].
Proof. destruct l; split; congruence. Qed.

Lemma render_save_in_sync (st : Local.state) :
  Local.in_sync (Local.render (Local.save st)).
Proof.
  unfold Local.in_sync. split; [|split; [|split]].
  - unfold Local.load, Local.getItem, try_catch, bind.
    cbn [Local.render Local.save Local.renderCounts Local.storage Local.todos].
    rewrite JSON_stringify_truthy, JSON_parse_stringify. reflexivity.
  - reflexivity.
  - apply display_of_list.
  - reflexivity.
Qed.

Lemma filter_keeps_all (p : Local.todo -> bool) (l : list Local.todo) :
  List.length (filter p l) = List.length l -> filter p l = l.
Proof.
  intros H. apply filter_all. apply filter_same_length. assumption.
Qed.

Lemma clearCompleted_cases (st : Local.state) :
  (Local.clearCompleted st = st
   /\ filter (fun x => negb (Local.completed x)) (Local.todos st)
      = Local.todos st)
  \/ (Local.clearCompleted st
      = Local.render (Local.save (Local.set_todos
          (filter (fun x => negb (Local.completed x)) (Local.todos st)) st))
      /\ List.length (filter (fun x => negb (Local.completed x))
                             (Local.todos st))
         <> List.length (Local.todos st)).
Proof.
  unfold Local.clearCompleted. cbv zeta.
  cbn [Local.set_todos Local.todos].
  destruct (Nat.eqb_spec
              (List.length (filter (fun x => negb (Local.completed x))
                                   (Local.todos st)))
              (List.length (Local.todos st))) as [E|E].
  - left. apply filter_keeps_all in E. rewrite E.
    split; [apply set_todos_same|reflexivity].
  - right. split; [reflexivity|assumption].
Qed.

Lemma handle_keeps_sync (e : Local.event) (st : Local.state) :
  Local.in_sync st -> Local.in_sync (Local.handle e st).
Proof.
  intros H. destruct e as [fresh now txt|i c|i|]; cbn [Local.handle].
  - unfold Local.addTodo. cbv zeta.
    destruct (negb (truthy (trim txt))); [assumption|].
    apply render_save_in_sync.
  - unfold Local.toggleTodo.
    destruct (find _ (Local.todos st)); [apply render_save_in_sync|assumption].
  - apply render_save_in_sync.
  - destruct (clearCompleted_cases st) as [[-> _]|[-> _]];
      [assumption|apply render_save_in_sync].
Qed.

Lemma init_of_in_sync (st : Local.state) :
  Local.in_sync st ->
  Local.init st = Some (Local.render (Local.set_todos (Local.todos st) st))
  /\ Local.view (Local.render (Local.set_todos (Local.todos st) st))
     = Local.view st.
Proof.
  intros (H1 & H2 & H3 & H4). split.
  - unfold Local.init. rewrite H1, todos_of_to_json. reflexivity.
  - cbn [Local.render Local.renderCounts Local.set_todos Local.view
           Local.todos list_rows empty_display count_text].
    destruct (Local.view st) as [rows shown cnt].
    cbn [list_rows empty_display count_text] in *.
    rewrite <- H2, <- H4. f_equal.
    destruct (Local.todos st); destruct shown; try reflexivity.
    + destruct H3 as [_ H3]. specialize (H3 eq_refl). discriminate.
    + destruct H3 as [H3 _]. specialize (H3 eq_refl). discriminate.
Qed.

(** ** A store that accepts and a store that refuses *)

Lemma quota_accepts (e : Local.event) (st : Local.state) :
  LocalQuota.handle None e st = (Normal tt, Local.handle e st).
Proof.
  destruct e as [fresh now txt|i c|i|]; cbn [LocalQuota.handle Local.handle].
  - unfold LocalQuota.addTodo, Local.addTodo. cbv zeta.
    destruct (negb (truthy (trim txt))); reflexivity.
  - unfold LocalQuota.toggleTodo, Local.toggleTodo.
    destruct (find _ (Local.todos st)); reflexivity.
  - reflexivity.
  - unfold LocalQuota.clearCompleted, Local.clearCompleted,
      LocalQuota.andthen, LocalQuota.assign. cbv zeta.
    destruct (negb _); reflexivity.
Qed.

Lemma quota_refuses (x : exn) (e : Local.event) (st : Local.state) :
  (LocalQuota.handle (Some x) e st = (Normal tt, st)
   /\ Local.handle e st = st)
  \/ LocalQuota.handle (Some x) e st
     = (Throw x, Local.set_todos (Local.todos (Local.handle e st)) st).
Proof.
  destruct e as [fresh now txt|i c|i|]; cbn [LocalQuota.handle Local.handle].
  - unfold LocalQuota.addTodo, Local.addTodo. cbv zeta.
    destruct (negb (truthy (trim txt))); [left; auto|right; reflexivity].
  - unfold LocalQuota.toggleTodo, Local.toggleTodo.
    destruct (find _ (Local.todos st)); [right; reflexivity|left; auto].
  - right. reflexivity.
  - unfold LocalQuota.clearCompleted, LocalQuota.andthen, LocalQuota.assign.
    cbv zeta. cbn [Local.set_todos Local.todos].
    destruct (clearCompleted_cases st) as [[E1 E2]|[E1 E2]].
    + left. rewrite E2, Nat.eqb_refl, set_todos_same. auto.
    + right. apply Nat.eqb_neq in E2. rewrite E2, E1. reflexivity.
Qed.


(** X1. As long as the store accepts the writes, whatever the user does,
    in whatever order, the store and the document keep agreeing with the
    collection: what is stored loads as the collection in memory, and the
    list, the placeholder and the counter are those of that collection.
    On such a store the run is the run of the operations of [Local]. *)
Theorem run_keeps_sync (es : list (Local.event * option exn))
    (st : Local.state) :
  Local.in_sync st ->
  Forall (fun p => snd p = None) es ->
  Local.in_sync (LocalQuota.run es st)
  /\ LocalQuota.run es st = Local.run (map fst es) st.
Proof.
  intros Hs Hes. revert st Hs. induction Hes as [|[e a] es Ha _ IH];
    intros st Hs; [split; [exact Hs|reflexivity]|].
  cbn [snd] in Ha. subst a.
  cbn [LocalQuota.run map fst Local.run]. rewrite quota_accepts. cbn [snd].
  apply IH, handle_keeps_sync, Hs.
Qed.


(** X2. On a store holding the text [save] wrote for a collection whose
    items carry time values, [init] goes through: the collection is that
    collection, the store and the document agree with it, the store is as
    it was, and the list was drawn once.  Stored values of another form
    are not covered. *)
Theorem init_on_saved_store (l : list Local.todo) (st : Local.state) :
  Forall (fun t => Local.is_time_value (Local.createdAt t)) l ->
  Local.storage st = Some (Local.JSON_stringify l) ->
  exists st',
    Local.init st = Some st'
    /\ Local.todos st' = l
    /\ Local.in_sync st'
    /\ Local.storage st' = Local.storage st
    /\ Local.trace st' = Local.trace st ++ [Local.Render].
Proof.
  intros _ H.
  assert (Hl : forall st0, Local.storage st0 = Some (Local.JSON_stringify l) ->
                 Local.load (Local.getItem st0)
                 = Normal (Local.todos_to_json l)).
  { intros st0 H0. unfold Local.load, Local.getItem, try_catch, bind.
    rewrite H0, JSON_stringify_truthy, JSON_parse_stringify. reflexivity. }
  exists (Local.render (Local.set_todos l st)).
  split; [unfold Local.init; rewrite (Hl st H), todos_of_to_json; reflexivity|].
  split; [reflexivity|]. split; [|split; reflexivity].
  unfold Local.in_sync. split; [apply Hl; exact H|].
  split; [reflexivity|]. split; [apply display_of_list|reflexivity].
Qed.

(** X3. On a store that has no value, or a value that does not parse,
    [init] starts with the empty collection: no row, the placeholder
    showing, the counter at 0 items; the store is left as it is. *)
Theorem init_on_unusable_store (st : Local.state) :
  (Local.storage st = None
   \/ exists s e, Local.storage st = Some s /\ JSON_parse s = Throw e) ->
  exists st',
    Local.init st = Some st'
    /\ Local.todos st' = []
    /\ Local.view st' = mkDom [] Block (lit "0 items")
    /\ Local.storage st' = Local.storage st.
Proof.
  intros H.
  assert (Hl : Local.load (Local.getItem st) = Normal (JArr [])).
  { unfold Local.load, Local.getItem, try_catch, bind.
    destruct H as [->|(s & e & -> & Hs)]; [reflexivity|].
    destruct (truthy s); [rewrite Hs|]; reflexivity. }
  exists (Local.render (Local.set_todos [] st)).
  unfold Local.init. rewrite Hl. repeat split.
Qed.

(** X4. From a state in which store and document agree with the
    collection: after any run on a store that accepts the writes, starting
    the program again on the same store gives the same collection and the
    same document; after an operation whose write the store refused,
    starting the program again gives the collection and the document as
    they were before that operation. *)
Theorem reload_restores (es : list (Local.event * option exn))
    (st : Local.state) :
  Local.in_sync st ->
  (Forall (fun p => snd p = None) es ->
   exists st',
     Local.init (LocalQuota.run es st) = Some st'
     /\ Local.todos st' = Local.todos (LocalQuota.run es st)
     /\ Local.view st' = Local.view (LocalQuota.run es st)
     /\ Local.storage st' = Local.storage (LocalQuota.run es st))
  /\ (forall x e,
         fst (LocalQuota.handle (Some x) e st) = Throw x ->
         exists st',
           Local.init (snd (LocalQuota.handle (Some x) e st)) = Some st'
           /\ Local.todos st' = Local.todos st
           /\ Local.view st' = Local.view st
           /\ Local.storage st' = Local.storage st).
Proof.
  intros Hs. split.
  - intros Hes.
    assert (H : Local.in_sync (LocalQuota.run es st)).
    { revert st Hs. induction Hes as [|[e a] es Ha _ IH]; intros st Hs;
        [exact Hs|].
      cbn [snd] in Ha. subst a. cbn [LocalQuota.run].
      rewrite quota_accepts. cbn [snd]. apply IH, handle_keeps_sync, Hs. }
    destruct (init_of_in_sync H) as (Hi & Hv).
    eexists. split; [exact Hi|]. split; [reflexivity|].
    split; [exact Hv|reflexivity].
  - intros x e Hthrow.
    destruct (quota_refuses x e st) as [[E _]|E]; rewrite E in *;
      [discriminate Hthrow|]. cbn [snd].
    destruct (init_of_in_sync Hs) as (_ & Hv). destruct Hs as (H1 & _).
    exists (Local.render (Local.set_todos (Local.todos st) st)).
    split; [|split; [reflexivity|split; [exact Hv|reflexivity]]].
    unfold Local.init. unfold Local.getItem in *.
    cbn [Local.set_todos Local.storage]. rewrite H1, todos_of_to_json.
    reflexivity.
Qed.

(* ================================================================== *)
(** * The items of the local collection *)
(* ================================================================== *)

(** ** Trimmed texts *)

Lemma trimStart_fixed (a : codeunit) (r : jsstring) :
  isWhiteSpace a = false -> trimStart (a :: r) = a :: r.
Proof. intros H. cbn [trimStart]. rewrite H. reflexivity. Qed.

Lemma trimStart_suffix (s : jsstring) : exists p, s = p ++ trimStart s.
Proof.
  induction s as [|c s (p & IH)]; [exists []; reflexivity|].
  cbn [trimStart]. destruct (isWhiteSpace c).
  - exists (c :: p). cbn [app]. rewrite <- IH. reflexivity.
  - exists []. reflexivity.
Qed.

Lemma trim_last (s r : jsstring) (b : codeunit) :
  trim s = r ++ [b] -> isWhiteSpace b = false.
Proof.
  unfold trim, trimEnd. intros H.
  apply (f_equal (@rev _)) in H. rewrite rev_involutive, rev_app_distr in H.
  cbn [rev app] in H. apply trimStart_head in H. exact H.
Qed.

Lemma trim_first (s r : jsstring) (a : codeunit) :
  trim s = a :: r -> isWhiteSpace a = false.
Proof.
  unfold trim, trimEnd. intros H.
  destruct (trimStart_suffix (rev (trimStart s))) as (p & Hp).
  apply (f_equal (@rev _)) in Hp.
  rewrite rev_involutive, rev_app_distr, H in Hp. cbn [app] in Hp.
  apply trimStart_head in Hp. exact Hp.
Qed.

Lemma trim_trim (s : jsstring) : trim (trim s) = trim s.
Proof.
  destruct (trim s) as [|a r] eqn:E; [reflexivity|].
  pose proof (@trim_first _ _ _ E) as Ha.
  destruct (exists_last (l := a :: r) ltac:(discriminate)) as (r' & b & Hb).
  rewrite Hb in E. pose proof (@trim_last _ _ _ E) as Hlast.
  unfold trim, trimEnd. rewrite (@trimStart_fixed _ _ Ha), Hb, rev_app_distr.
  cbn [rev app]. rewrite (@trimStart_fixed _ _ Hlast).
  change (b :: rev r') with (rev [b] ++ rev r').
  rewrite <- rev_app_distr, rev_involutive. reflexivity.
Qed.

Lemma Forall_assign_completed (P : Local.todo -> Prop) (i : jsstring)
    (c : bool) (l : list Local.todo) :
  (forall x, P x ->
             P (Local.mkTodo (Local.id x) (Local.text x) c (Local.createdAt x))) ->
  Forall P l -> Forall P (Local.assign_completed i c l).
Proof.
  intros HP H. induction H as [|x l Hx Hl IH]; cbn [Local.assign_completed];
    [constructor|].
  destruct (str_eqb (Local.id x) i); constructor; auto.
Qed.

Lemma Forall_filter {A} (P : A -> Prop) (p : A -> bool) (l : list A) :
  Forall P l -> Forall P (filter p l).
Proof.
  intros H. induction H as [|x l Hx Hl IH]; cbn [filter]; [constructor|].
  destruct (p x); [constructor|]; assumption.
Qed.

Lemma todos_render_save (st : Local.state) :
  Local.todos (Local.render (Local.save st)) = Local.todos st.
Proof. reflexivity. Qed.

Lemma handle_keeps_trimmed (e : Local.event) (st : Local.state) :
  Forall Local.trimmed_text (Local.todos st) ->
  Forall Local.trimmed_text (Local.todos (Local.handle e st)).
Proof.
  intros H. destruct e as [fresh now txt|i c|i|]; cbn [Local.handle].
  - unfold Local.addTodo. cbv zeta.
    destruct (trim txt) as [|a r] eqn:E; [exact H|].
    cbn [truthy negb]. rewrite todos_render_save. cbn [Local.set_todos Local.todos].
    constructor; [|exact H]. unfold Local.trimmed_text. cbn [Local.text].
    split; [discriminate|]. rewrite <- E. apply trim_trim.
  - unfold Local.toggleTodo. destruct (find _ (Local.todos st)); [|exact H].
    rewrite todos_render_save. cbn [Local.set_todos Local.todos].
    apply Forall_assign_completed; [|exact H]. intros x Hx. exact Hx.
  - unfold Local.deleteTodo. rewrite todos_render_save.
    apply Forall_filter, H.
  - destruct (clearCompleted_cases st) as [[-> _]|[-> _]]; [exact H|].
    rewrite todos_render_save. apply Forall_filter, H.
Qed.

(** X5. The text of every item is not empty and has no white space at
    either end, after any run from a collection of which this is true:
    [addTodo] stores the trimmed text and never an empty one, and no
    operation changes a text. *)
Theorem run_keeps_texts_trimmed (es : list Local.event) (st : Local.state) :
  Forall Local.trimmed_text (Local.todos st) ->
  Forall Local.trimmed_text (Local.todos (Local.run es st))
  /\ forall t, In t (Local.todos (Local.run es st)) ->
       exists a r b r',
         Local.text t = a :: r /\ isWhiteSpace a = false
         /\ Local.text t = r' ++ [b] /\ isWhiteSpace b = false.
Proof.
  intros H.
  assert (HF : Forall Local.trimmed_text (Local.todos (Local.run es st))).
  { revert st H. induction es as [|e es IH]; intros st H; [exact H|].
    cbn [Local.run]. apply IH, handle_keeps_trimmed, H. }
  split; [exact HF|]. intros t Ht.
  rewrite Forall_forall in HF. destruct (HF t Ht) as (Hne & Htrim).
  destruct (Local.text t) as [|a r] eqn:E; [congruence|].
  destruct (exists_last (l := a :: r) ltac:(discriminate)) as (r' & b & Hb).
  exists a, r, b, r'. split; [reflexivity|].
  split; [exact (@trim_first _ _ _ Htrim)|]. split; [exact Hb|].
  rewrite Hb in Htrim. exact (@trim_last _ _ _ Htrim).
Qed.

(** ** Identifiers *)

Lemma ids_assign_completed (i : jsstring) (c : bool) (l : list Local.todo) :
  map Local.id (Local.assign_completed i c l) = map Local.id l.
Proof.
  induction l as [|x l IH]; [reflexivity|]. cbn [Local.assign_completed].
  destruct (str_eqb (Local.id x) i); cbn [map Local.id]; [reflexivity|].
  rewrite IH. reflexivity.
Qed.

Lemma NoDup_ids_filter (p : Local.todo -> bool) (l : list Local.todo) :
  NoDup (map Local.id l) -> NoDup (map Local.id (filter p l)).
Proof.
  induction l as [|x l IH]; cbn [map filter]; intros H; [exact H|].
  inversion H as [|? ? Hx Hl]; subst.
  destruct (p x); [|auto]. cbn [map]. constructor; [|auto].
  intros Hin. apply Hx. apply in_map_iff in Hin as (y & Hy & Hin).
  apply filter_In in Hin as [Hin _]. rewrite <- Hy. apply in_map, Hin.
Qed.

(** X6. The identifiers of the collection stay distinct: toggling leaves
    the list of identifiers as it is, deleting and clearing only remove
    some, and adding keeps them distinct when the identifier generated is
    not in use. *)
Theorem handle_keeps_ids_distinct (e : Local.event) (st : Local.state) :
  NoDup (map Local.id (Local.todos st)) ->
  match e with
  | Local.Add fresh _ _ => ~ In fresh (map Local.id (Local.todos st))
  | _ => True
  end ->
  NoDup (map Local.id (Local.todos (Local.handle e st)))
  /\ forall i c, map Local.id (Local.todos (Local.toggleTodo i c st))
                 = map Local.id (Local.todos st).
Proof.
  intros H Hf. split.
  - destruct e as [fresh now txt|i c|i|]; cbn [Local.handle].
    + unfold Local.addTodo. cbv zeta.
      destruct (negb (truthy (trim txt))); [exact H|].
      rewrite todos_render_save. cbn [Local.set_todos Local.todos map Local.id].
      constructor; assumption.
    + unfold Local.toggleTodo. destruct (find _ (Local.todos st)); [|exact H].
      rewrite todos_render_save. cbn [Local.set_todos Local.todos].
      rewrite ids_assign_completed. exact H.
    + unfold Local.deleteTodo. rewrite todos_render_save.
      apply NoDup_ids_filter, H.
    + destruct (clearCompleted_cases st) as [[-> _]|[-> _]]; [exact H|].
      rewrite todos_render_save. apply NoDup_ids_filter, H.
  - intros i c. unfold Local.toggleTodo.
    destruct (find _ (Local.todos st)); [|reflexivity].
    rewrite todos_render_save. apply ids_assign_completed.
Qed.

(** ** Deleting and clearing *)

Lemma filter_filter_same {A} (p : A -> bool) (l : list A) :
  filter p (filter p l) = filter p l.
Proof.
  apply filter_all. intros x Hx. apply filter_In in Hx. apply Hx.
Qed.

Lemma filter_length_count (i : jsstring) (l : list Local.todo) :
  List.length (filter (fun x => negb (str_eqb (Local.id x) i)) l)
  + List.length (filter (fun x => str_eqb (Local.id x) i) l)
  = List.length l.
Proof.
  induction l as [|x l IH]; [reflexivity|]. cbn [filter].
  destruct (str_eqb (Local.id x) i); cbn [negb List.length]; lia.
Qed.

(** X7. [deleteTodo] removes every item that carries the identifier, also
    when several do, and no other item; the items left keep their order.
    Deleting the same identifier again changes nothing in the
    collection. *)
Theorem delete_removes_all_with_id (i : jsstring) (st : Local.state) :
  let st' := Local.deleteTodo i st in
  ~ In i (map Local.id (Local.todos st'))
  /\ (forall t, In t (Local.todos st') <->
                In t (Local.todos st) /\ Local.id t <> i)
  /\ List.length (Local.todos st')
     + List.length (filter (fun x => str_eqb (Local.id x) i) (Local.todos st))
     = List.length (Local.todos st)
  /\ Local.todos (Local.deleteTodo i st') = Local.todos st'.
Proof.
  cbv zeta. unfold Local.deleteTodo. rewrite !todos_render_save.
  cbn [Local.set_todos Local.todos]. split; [|split; [|split]].
  - intros H. apply in_map_iff in H as (t & Hi & Ht).
    apply filter_In in Ht as [_ Ht]. apply negb_true_iff, str_eqb_neq in Ht.
    contradiction.
  - intros t. rewrite filter_In, negb_true_iff, str_eqb_neq. reflexivity.
  - apply filter_length_count.
  - apply filter_filter_same.
Qed.



(** ** The listeners of the rows *)

Lemma nth_error_decompose {A} (l : list A) (n : nat) (x : A) :
  nth_error l n = Some x -> l = firstn n l ++ x :: skipn (S n) l.
Proof.
  revert n. induction l as [|y l IH]; intros [|n] H; try discriminate.
  - injection H as ->. reflexivity.
  - cbn [firstn skipn app]. f_equal. apply IH. exact H.
Qed.

(** With distinct identifiers, the identifier of the item at place [n]
    finds that item and no other. *)
Lemma unique_id_at (l : list Local.todo) :
  forall n t,
    NoDup (map Local.id l) ->
    nth_error l n = Some t ->
    find (fun x => str_eqb (Local.id x) (Local.id t)) l = Some t
    /\ (forall c, Local.assign_completed (Local.id t) c l
                  = firstn n l
                    ++ Local.mkTodo (Local.id t) (Local.text t) c
                                    (Local.createdAt t) :: skipn (S n) l)
    /\ filter (fun x => negb (str_eqb (Local.id x) (Local.id t))) l
       = firstn n l ++ skipn (S n) l.
Proof.
  induction l as [|x l IH]; intros [|n] t Hnd Hn; try discriminate.
  - injection Hn as ->. inversion Hnd as [|? ? Hx _]; subst.
    cbn [find Local.assign_completed filter firstn skipn app].
    rewrite str_eqb_refl. repeat split. cbn [negb].
    apply delete_absent. exact Hx.
  - inversion Hnd as [|? ? Hx Hl]; subst. cbn [nth_error] in Hn.
    assert (Hne : str_eqb (Local.id x) (Local.id t) = false).
    { apply str_eqb_neq. intros E. apply Hx. rewrite E.
      apply in_map. eapply nth_error_In. exact Hn. }
    destruct (IH n t Hl Hn) as (H1 & H2 & H3).
    cbn [find Local.assign_completed filter firstn skipn app].
    rewrite Hne. cbn [negb]. split; [exact H1|]. split.
    + intros c. rewrite H2. reflexivity.
    + cbn [skipn] in H3. rewrite H3. reflexivity.
Qed.

Lemma row_at (st : Local.state) (n : nat) (t : Local.todo) :
  Local.in_sync st ->
  nth_error (Local.todos st) n = Some t ->
  nth_error (list_rows (Local.view st)) n = Some (Local.render_row t).
Proof.
  intros (_ & H & _) Hn. rewrite H, nth_error_map, Hn. reflexivity.
Qed.

(** X9. In a state where the document shows the collection and the
    identifiers are distinct, the listeners of row [n] act on the item at
    place [n] and on no other: the checkbox, when the user flips it, flips
    the flag of that item and moves the number of active items by exactly
    one; the delete button removes that item. *)
Theorem row_listeners_act_on_their_item (st : Local.state) (n : nat)
    (t : Local.todo) :
  Local.in_sync st ->
  NoDup (map Local.id (Local.todos st)) ->
  nth_error (Local.todos st) n = Some t ->
  let flipped := Local.checkbox_change n (negb (Local.completed t)) st in
  Local.todos flipped
  = firstn n (Local.todos st)
    ++ Local.mkTodo (Local.id t) (Local.text t) (negb (Local.completed t))
                    (Local.createdAt t)
    :: skipn (S n) (Local.todos st)
  /\ (Local.completed t = false ->
      Local.active (Local.todos flipped) + 1 = Local.active (Local.todos st))
  /\ (Local.completed t = true ->
      Local.active (Local.todos flipped) = Local.active (Local.todos st) + 1)
  /\ Local.todos (Local.delete_click n st)
     = firstn n (Local.todos st) ++ skipn (S n) (Local.todos st).
Proof.
  intros Hs Hnd Hn. cbv zeta.
  pose proof (@row_at st n t Hs Hn) as Hr.
  destruct (@unique_id_at (Local.todos st) n t Hnd Hn) as (Hf & Ha & Hd).
  unfold Local.checkbox_change, Local.delete_click. rewrite Hr.
  cbn [dataset_id Local.render_row].
  unfold Local.toggleTodo, Local.deleteTodo. rewrite Hf, !todos_render_save.
  cbn [Local.set_todos Local.todos]. rewrite Ha, Hd.
  split; [reflexivity|].
  pose proof (@nth_error_decompose _ _ _ _ Hn) as Hl.
  assert (Hact : Local.active (Local.todos st)
                 = Local.active (firstn n (Local.todos st))
                   + ((if Local.completed t then 0 else 1)
                      + Local.active (skipn (S n) (Local.todos st)))).
  { rewrite Hl at 1. rewrite active_app, active_cons. reflexivity. }
  rewrite active_app, active_cons, Hact. cbn [Local.completed].
  repeat split; intros ->; cbn [negb]; lia.
Qed.

(** ** The form *)

(** X10. Submitting the form empties the text field and gives it the
    focus once [addTodo] has returned: at once when the field holds white
    space only, and nothing else changes; after the new item, carrying the
    trimmed text, was put at the front, stored and drawn, when the store
    accepts the write.  When the store refuses the write the exception
    leaves [onSubmit] before these lines: the field keeps its text, the
    new item is in the collection in memory, and neither the store nor the
    document has it. *)
Theorem onSubmit_empties_input_once_saved (fresh : jsstring) (now : Z)
    (f : Local.form) (st : Local.state) :
  let v := Local.input_value f in
  let item := Local.mkTodo fresh (trim v) false now in
  (forallb isWhiteSpace v = true ->
   forall answer,
     LocalQuota.onSubmit answer fresh now (f, st)
     = (Normal tt, (Local.mkForm [] true, st)))
  /\ (forallb isWhiteSpace v = false ->
      LocalQuota.onSubmit None fresh now (f, st)
      = (Normal tt,
         (Local.mkForm [] true,
          Local.render (Local.save (Local.set_todos (item :: Local.todos st)
                                                    st))))
      /\ forall x,
           LocalQuota.onSubmit (Some x) fresh now (f, st)
           = (Throw x, (f, Local.set_todos (item :: Local.todos st) st))).
Proof.
  cbv zeta. unfold LocalQuota.onSubmit, LocalQuota.addTodo. cbv zeta.
  split; intros H.
  - intros answer. apply trim_blank in H. rewrite H. reflexivity.
  - destruct (trim (Local.input_value f)) as [|a r] eqn:E.
    + apply trim_blank in E. congruence.
    + split; [reflexivity|]. intros x. reflexivity.
Qed.

(* ================================================================== *)
(** * The remote client: answers, failures and the document *)
(* ================================================================== *)

Section RemoteRuns.

Variable server : Type.
Variable fetch : Remote.request -> server -> completion Remote.response * server.

(** A response that is neither 204 nor ok makes [api] throw what lines
    21-22 throw. *)
Lemma api_not_ok (req : Remote.request) (w : Remote.world server)
    (res : Remote.response) (s' : server) :
  fetch req (Remote.srv w) = (Normal res, s') ->
  Remote.status res <> 204%N ->
  Remote.ok res = false ->
  fst (Remote.api fetch req w) = Throw (Remote.failure res).
Proof.
  intros Hf Hs Ho. unfold Remote.api. rewrite Hf.
  apply N.eqb_neq in Hs. rewrite Hs, Ho. reflexivity.
Qed.

Lemma all_api_one (req : Remote.request) (w : Remote.world server) :
  snd (Remote.all_api fetch [req] w) = snd (Remote.api fetch req w).
Proof.
  cbn [Remote.all_api]. destruct (Remote.api fetch req w) as [o w1].
  reflexivity.
Qed.

Lemma call_then_fetch_returns (req : Remote.request)
    (w w' : Remote.world server) :
  Remote.mbind (Remote.api fetch req) (fun _ => Remote.fetchTodos fetch) w
  = (Normal tt, w') ->
  exists res l,
    fetch (Remote.GET (lit "/todos"))
          (Remote.srv (snd (Remote.all_api fetch [req] w)))
    = (Normal res, Remote.srv w')
    /\ Remote.status res <> 204%N
    /\ Remote.ok res = true
    /\ Remote.json res = Normal (Remote.PItems l)
    /\ Remote.shows w' l
    /\ Remote.renders w' = S (Remote.renders w)
    /\ Remote.requests w'
       = Remote.requests w ++ [req] ++ [Remote.GET (lit "/todos")].
Proof.
  rewrite all_api_one.
  unfold Remote.mbind. pose proof (api_world fetch req w) as Hw.
  destruct (Remote.api fetch req w) as [[v|e] w1]; [|discriminate].
  cbn [snd] in *. intros H.
  apply (@fetchTodos_returns _ fetch) in H
    as (res & l & H0 & Hs & Ho & Hj & H1 & H2 & H3).
  exists res, l. repeat (split; [assumption|]). rewrite H2, H3, Hw.
  cbn [Remote.renders Remote.requests]. rewrite <- app_assoc. auto.
Qed.

Lemma all_api_world (reqs : list Remote.request) (w : Remote.world server) :
  Remote.todos (snd (Remote.all_api fetch reqs w)) = Remote.todos w
  /\ Remote.view (snd (Remote.all_api fetch reqs w)) = Remote.view w
  /\ Remote.renders (snd (Remote.all_api fetch reqs w)) = Remote.renders w.
Proof.
  revert w. induction reqs as [|r reqs IH]; intros w; [cbn; auto|].
  cbn [Remote.all_api]. pose proof (api_world fetch r w) as Hw.
  destruct (Remote.api fetch r w) as [o w1]. cbn [snd] in Hw.
  specialize (IH w1).
  destruct (Remote.all_api fetch reqs w1) as [os w2]. cbn [snd] in *.
  destruct IH as (H1 & H2 & H3). rewrite H1, H2, H3, Hw. cbn. auto.
Qed.

Lemma rejections_in (os : list (completion Remote.payload)) (e : exn) :
  In e (Remote.rejections os) <-> In (Throw e) os.
Proof.
  induction os as [|[v|e'] os IH]; cbn [Remote.rejections In]; [tauto| |].
  - rewrite IH. split; [auto|]. intros [H|H]; [discriminate|assumption].
  - rewrite IH. split; (intros [H|H]; [left; congruence|right; assumption]).
Qed.

(** What [Promise.all] rejects with is what one of the rejected calls
    threw. *)
Lemma raced_in (n : nat) (e : exn) (es : list exn) :
  In (nth n (e :: es) e) (e :: es).
Proof.
  destruct (nth_in_or_default n (e :: es) e) as [H|H]; [exact H|].
  rewrite H. left. reflexivity.
Qed.

(** X11. When an operation of the remote program returns, the document
    shows the list the server gave in answer to the fetch that ends the
    operation: after the calls of the operation, the GET was answered by an
    ok response, not 204, whose body is an array; the collection is that
    array, the rows, the placeholder and the counter are those of that
    array, one redraw was done, and the requests sent are the calls of the
    operation and then that GET.  The one exception is adding a blank text,
    which does nothing.  Bodies are null, arrays of task items, or values
    that are not arrays. *)
Theorem remote_return_shows_list (e : Remote.event)
    (w w' : Remote.world server) :
  Remote.handle fetch e w = (Normal tt, w') ->
  (exists txt, e = Remote.Add txt /\ trim txt = [] /\ w' = w)
  \/ let w1 := snd (Remote.all_api fetch (Remote.calls e w) w) in
     exists res l,
       fetch (Remote.GET (lit "/todos")) (Remote.srv w1)
       = (Normal res, Remote.srv w')
       /\ Remote.status res <> 204%N
       /\ Remote.ok res = true
       /\ Remote.json res = Normal (Remote.PItems l)
       /\ Remote.shows w' l
       /\ Remote.renders w' = S (Remote.renders w)
       /\ Remote.requests w'
          = Remote.requests w ++ Remote.calls e w
            ++ [Remote.GET (lit "/todos")].
Proof.
  destruct e as [|txt|i c|i|]; cbn [Remote.handle Remote.calls]; intros H;
    cbv zeta.
  - right. cbn [Remote.all_api snd].
    apply (@fetchTodos_returns _ fetch) in H as (res & l & H').
    exists res, l. exact H'.
  - unfold Remote.addTodo in H. cbv zeta in H.
    destruct (trim txt) as [|a r] eqn:E.
    + left. exists txt. cbn in H. injection H as <-. auto.
    + right. cbn [truthy negb] in H.
      apply call_then_fetch_returns in H. exact H.
  - right. apply call_then_fetch_returns in H. exact H.
  - right. apply call_then_fetch_returns in H. exact H.
  - right. unfold Remote.clearCompleted in H.
    destruct (Remote.todos w) as [l0|]; [|discriminate].
    unfold Remote.mbind, Remote.Promise_all in H.
    set (reqs := map _ (filter _ l0)) in *.
    pose proof (all_api_requests fetch reqs w) as Hr.
    pose proof (all_api_world reqs w) as (_ & _ & Hn).
    destruct (Remote.all_api fetch reqs w) as [os w1]. cbn [snd] in *.
    destruct (Remote.rejections os); [|discriminate].
    apply (@fetchTodos_returns _ fetch) in H
      as (res & l & H0 & Hs & Ho & Hj & H1 & H2 & H3).
    exists res, l. repeat (split; [assumption|]).
    rewrite H2, H3, Hr, Hn, <- app_assoc. auto.
Qed.

(** X12. When the server answers the request of a toggle, a delete or an
    add with a status that is neither 204 nor ok, the operation throws,
    sends nothing more, and leaves the collection and the document as they
    were.  What it throws is a TypeError when the body is the JSON value
    null; otherwise an Error, carrying the [error] property of the body
    when the body is not an array and has one that is truthy, and the
    status text in every other case, a body that is not JSON among
    them. *)
Theorem remote_failure_changes_nothing (req : Remote.request)
    (w : Remote.world server) (res : Remote.response) (s' : server) :
  fetch req (Remote.srv w) = (Normal res, s') ->
  Remote.status res <> 204%N ->
  Remote.ok res = false ->
  let w' := Remote.mkWorld (Remote.todos w) s' (Remote.requests w ++ [req])
                           (Remote.view w) (Remote.renders w)
                           (Remote.stray w) (Remote.race w) in
  let thrown : completion unit :=
    Throw (match Remote.json res with
           | Normal Remote.PNull => TypeError
           | Normal (Remote.POther (Some m) _) => Error m
           | Normal (Remote.POther None _) => Error (Remote.statusText res)
           | Normal (Remote.PItems _) => Error (Remote.statusText res)
           | Throw _ => Error (Remote.statusText res)
           end) in
  (forall i c,
      req = Remote.PUT (Remote.todo_url i) (Remote.is_completed_body c) ->
      Remote.toggleTodo fetch i c w = (thrown, w'))
  /\ (forall i,
         req = Remote.DELETE (Remote.todo_url i) ->
         Remote.deleteTodo fetch i w = (thrown, w'))
  /\ (forall txt,
         trim txt <> [] ->
         req = Remote.POST (lit "/todos") (Remote.content_body (trim txt)) ->
         Remote.addTodo fetch txt w = (thrown, w')).
Proof.
  intros Hf Hs Ho. cbv zeta.
  pose proof (@api_not_ok req w res s' Hf Hs Ho) as Ha.
  pose proof (@call_rejected _ fetch req w _ Ha) as Hc.
  rewrite api_world, Hf in Hc. cbn [snd] in Hc.
  split; [|split].
  - intros i c ->. exact Hc.
  - intros i ->. exact Hc.
  - intros txt Ht ->. unfold Remote.addTodo. cbv zeta.
    destruct (trim txt); [congruence|]. exact Hc.
Qed.

(** X13. When the server answers the fetch of the list with 204, the
    collection becomes null: the list of the document is emptied, the
    redraw throws a TypeError, and from then on [clearCompleted] throws a
    TypeError without sending any request. *)
Theorem remote_no_content_list (w : Remote.world server)
    (res : Remote.response) (s' : server) :
  fetch (Remote.GET (lit "/todos")) (Remote.srv w) = (Normal res, s') ->
  Remote.status res = 204%N ->
  let w' := snd (Remote.fetchTodos fetch w) in
  fst (Remote.fetchTodos fetch w) = Throw TypeError
  /\ Remote.todos w' = None
  /\ list_rows (Remote.view w') = []
  /\ Remote.renders w' = Remote.renders w
  /\ Remote.clearCompleted fetch w' = (Throw TypeError, w').
Proof.
  intros Hf Hs. cbv zeta.
  unfold Remote.fetchTodos, Remote.mbind, Remote.api.
  rewrite Hf, Hs. cbn. auto.
Qed.

(** X15. When at least one of the DELETE calls of [clearCompleted] is
    rejected, [clearCompleted] throws what one of the rejected calls
    threw, the one rejected first in time, which need not be the first of
    the list; every DELETE has been sent all the same, the list is not
    fetched, and the collection and the document stay as they were
    although items may be gone from the server. *)
Theorem remote_clear_rejected (w : Remote.world server)
    (l : list Remote.todo) :
  Remote.todos w = Some l ->
  let reqs := map (fun t => Remote.DELETE (Remote.todo_url (Remote.id t)))
                  (filter (fun t => Remote.is_completed t) l) in
  let outcomes := fst (Remote.all_api fetch reqs w) in
  (exists e, In (Throw e) outcomes) ->
  let w' := snd (Remote.clearCompleted fetch w) in
  (exists e, fst (Remote.clearCompleted fetch w) = Throw e
             /\ In (Throw e) outcomes)
  /\ (forall e es,
         Remote.rejections outcomes = e :: es ->
         fst (Remote.clearCompleted fetch w)
         = Throw (nth (Remote.race w (List.length (Remote.requests w)))
                      (e :: es) e))
  /\ Remote.requests w' = Remote.requests w ++ reqs
  /\ Remote.todos w' = Remote.todos w
  /\ Remote.view w' = Remote.view w
  /\ Remote.renders w' = Remote.renders w.
Proof.
  intros Hl. cbv zeta. intros (e0 & Hin).
  unfold Remote.clearCompleted. rewrite Hl.
  unfold Remote.mbind, Remote.Promise_all.
  set (reqs := map _ (filter _ l)) in *.
  pose proof (all_api_requests fetch reqs w) as Hq.
  pose proof (all_api_world reqs w) as (H1 & H2 & H3).
  destruct (Remote.all_api fetch reqs w) as [os w1]. cbn [fst snd] in *.
  destruct (Remote.rejections os) as [|e1 es] eqn:Hr.
  - apply rejections_in in Hin. rewrite Hr in Hin. contradiction.
  - cbn [fst snd]. rewrite <- Hl. split; [|split; [|auto]].
    + eexists. split; [reflexivity|].
      apply rejections_in. rewrite Hr. apply raced_in.
    + intros e2 es2 E. injection E as <- <-. reflexivity.
Qed.


End RemoteRuns.

(* ================================================================== *)
(** * The bodies of the requests *)
(* ================================================================== *)

Section RequestBodies.

Variable server : Type.
Variable fetch : Remote.request -> server -> completion Remote.response * server.

(** X14. The bodies the remote program sends are JSON texts that say what
    was meant, whatever code units the text holds: the body of the POST
    parses to an object whose only property, [content], is the trimmed
    text, and the body of the PUT to an object whose only property,
    [is_completed], is the flag.  An add of a text that is not blank sends
    that POST first. *)
Theorem request_bodies_parse_back (txt : jsstring) (c : bool)
    (w : Remote.world server) :
  JSON_parse (Remote.content_body (trim txt))
  = Normal (JObj [(lit "content", JStr (trim txt))])
  /\ JSON_parse (Remote.is_completed_body c)
     = Normal (JObj [(lit "is_completed", JBool c)])
  /\ (trim txt <> [] ->
      exists rest,
        Remote.requests (snd (Remote.addTodo fetch txt w))
        = Remote.requests w
          ++ Remote.POST (lit "/todos") (Remote.content_body (trim txt))
          :: rest).
Proof.
  split; [|split].
  - unfold JSON_parse, lex, Remote.content_body.
    scan_known. scan_known. scan_known.
    scan_with (scan_QuoteJSONString (trim txt)).
    reflexivity.
  - destruct c; reflexivity.
  - intros H. unfold Remote.addTodo. cbv zeta.
    destruct (trim txt) as [|a r] eqn:E; [congruence|]. cbn [truthy negb].
    destruct (call_then_fetch fetch
                (Remote.POST (lit "/todos") (Remote.content_body (a :: r))) w)
      as (rest & Hr & _).
    exists rest. exact Hr.
Qed.

End RequestBodies.

(* ================================================================== *)
(** * Worked cases of the runs *)
(* ================================================================== *)

Lemma two_drawn_in_sync : Local.in_sync Sample.two_drawn.
Proof.
  unfold Local.in_sync. split; [reflexivity|]. split; [reflexivity|].
  split; [|reflexivity]. split; discriminate.
Defined.

Lemma run_keeps_sync_witness :
  Local.in_sync Sample.two_drawn
  /\ Forall (fun p : Local.event * option exn => snd p = None)
            [(Local.Toggle (lit "a") true, None); (Local.Clear, None)]
  /\ Local.in_sync
       (LocalQuota.run
          [(Local.Toggle (lit "a") true, None); (Local.Clear, None)]
          Sample.two_drawn).
Proof.
  assert (H : Forall (fun p : Local.event * option exn => snd p = None)
                [(Local.Toggle (lit "a") true, None); (Local.Clear, None)])
    by (repeat constructor).
  split; [exact two_drawn_in_sync|]. split; [exact H|].
  exact (proj1 (@run_keeps_sync
                  [(Local.Toggle (lit "a") true, None); (Local.Clear, None)]
                  Sample.two_drawn two_drawn_in_sync H)).
Defined.


Lemma init_on_saved_store_witness :
  Forall (fun t => Local.is_time_value (Local.createdAt t))
         [Sample.a; Sample.b]
  /\ Local.storage Sample.two_drawn
     = Some (Local.JSON_stringify [Sample.a; Sample.b])
  /\ exists st',
       Local.init Sample.two_drawn = Some st'
       /\ Local.todos st' = [Sample.a; Sample.b]
       /\ Local.in_sync st'
       /\ Local.storage st' = Local.storage Sample.two_drawn
       /\ Local.trace st' = Local.trace Sample.two_drawn ++ [Local.Render].
Proof.
  assert (H : Local.storage Sample.two_drawn
              = Some (Local.JSON_stringify [Sample.a; Sample.b]))
    by reflexivity.
  assert (Ht : Forall (fun t => Local.is_time_value (Local.createdAt t))
                 [Sample.a; Sample.b]).
  { repeat constructor; unfold Local.is_time_value; cbn; lia. }
  split; [exact Ht|]. split; [exact H|].
  exact (@init_on_saved_store [Sample.a; Sample.b] Sample.two_drawn Ht H).
Defined.

Lemma init_on_unusable_store_witness :
  Local.storage Local.initial = None
  /\ exists st',
       Local.init Local.initial = Some st'
       /\ Local.todos st' = []
       /\ Local.view st' = mkDom [] Block (lit "0 items")
       /\ Local.storage st' = Local.storage Local.initial.
Proof.
  split; [reflexivity|].
  exact (init_on_unusable_store Local.initial (or_introl eq_refl)).
Defined.

Lemma reload_restores_witness :
  Local.in_sync Sample.two_drawn
  /\ Forall (fun p : Local.event * option exn => snd p = None)
            [(Local.Delete (lit "a"), None)]
  /\ exists st',
       Local.init
         (LocalQuota.run [(Local.Delete (lit "a"), None)] Sample.two_drawn)
       = Some st'
       /\ Local.todos st'
          = Local.todos
              (LocalQuota.run [(Local.Delete (lit "a"), None)]
                              Sample.two_drawn)
       /\ Local.view st'
          = Local.view
              (LocalQuota.run [(Local.Delete (lit "a"), None)]
                              Sample.two_drawn)
       /\ Local.storage st'
          = Local.storage
              (LocalQuota.run [(Local.Delete (lit "a"), None)]
                              Sample.two_drawn).
Proof.
  assert (H : Forall (fun p : Local.event * option exn => snd p = None)
                [(Local.Delete (lit "a"), None)]) by (repeat constructor).
  split; [exact two_drawn_in_sync|]. split; [exact H|].
  exact (proj1 (@reload_restores [(Local.Delete (lit "a"), None)]
                  Sample.two_drawn two_drawn_in_sync) H).
Defined.

Lemma two_trimmed : Forall Local.trimmed_text (Local.todos Sample.two).
Proof.
  repeat constructor; discriminate.
Defined.

Lemma run_keeps_texts_trimmed_witness :
  Forall Local.trimmed_text (Local.todos Sample.two)
  /\ Forall Local.trimmed_text
       (Local.todos
          (Local.run [Local.Add (lit "k1") 1700000000002 (lit "  milk ")]
                     Sample.two)).
Proof.
  split; [exact two_trimmed|].
  exact (proj1 (run_keeps_texts_trimmed
                  [Local.Add (lit "k1") 1700000000002 (lit "  milk ")]
                  Sample.two two_trimmed)).
Defined.

Lemma two_ids_distinct : NoDup (map Local.id (Local.todos Sample.two)).
Proof.
  repeat constructor; simpl; intros H;
    repeat (destruct H as [H|H]; try discriminate H); exact H.
Defined.

Lemma handle_keeps_ids_distinct_witness :
  NoDup (map Local.id (Local.todos Sample.two))
  /\ ~ In (lit "k1") (map Local.id (Local.todos Sample.two))
  /\ NoDup (map Local.id
              (Local.todos
                 (Local.handle
                    (Local.Add (lit "k1") 1700000000002 (lit "milk"))
                    Sample.two))).
Proof.
  assert (H : ~ In (lit "k1") (map Local.id (Local.todos Sample.two))).
  { simpl. intros [H|[H|[]]]; discriminate H. }
  split; [exact two_ids_distinct|]. split; [exact H|].
  exact (proj1 (handle_keeps_ids_distinct
                  (Local.Add (lit "k1") 1700000000002 (lit "milk"))
                  Sample.two two_ids_distinct H)).
Defined.

Lemma delete_removes_all_with_id_witness :
  In Sample.b (Local.todos Sample.two) /\ Local.id Sample.b <> lit "a"
  /\ In Sample.b (Local.todos (Local.deleteTodo (lit "a") Sample.two)).
Proof.
  assert (H : In Sample.b (Local.todos Sample.two)
              /\ Local.id Sample.b <> lit "a").
  { split; [simpl; auto|discriminate]. }
  split; [exact (proj1 H)|]. split; [exact (proj2 H)|].
  exact (proj2 (proj1 (proj2 (delete_removes_all_with_id (lit "a") Sample.two))
                  Sample.b) H).
Defined.


Lemma row_listeners_witness :
  Local.in_sync Sample.two_drawn
  /\ NoDup (map Local.id (Local.todos Sample.two_drawn))
  /\ nth_error (Local.todos Sample.two_drawn) 1 = Some Sample.b
  /\ Local.todos (Local.delete_click 1 Sample.two_drawn)
     = firstn 1 (Local.todos Sample.two_drawn)
       ++ skipn 2 (Local.todos Sample.two_drawn).
Proof.
  assert (Hn : nth_error (Local.todos Sample.two_drawn) 1 = Some Sample.b)
    by reflexivity.
  split; [exact two_drawn_in_sync|]. split; [exact two_ids_distinct|].
  split; [exact Hn|].
  exact (proj2 (proj2 (proj2
           (row_listeners_act_on_their_item 1 two_drawn_in_sync
              two_ids_distinct Hn)))).
Defined.

Lemma onSubmit_empties_input_witness :
  forallb isWhiteSpace (lit " milk") = false
  /\ LocalQuota.onSubmit (Some QuotaExceededError) (lit "k1") 1700000000002
       (Local.mkForm (lit " milk") true, Sample.two)
     = (Throw QuotaExceededError,
        (Local.mkForm (lit " milk") true,
         Local.set_todos
           (Local.mkTodo (lit "k1") (trim (lit " milk")) false 1700000000002
            :: Local.todos Sample.two)
           Sample.two)).
Proof.
  assert (H : forallb isWhiteSpace (lit " milk") = false) by reflexivity.
  split; [exact H|].
  pose proof (onSubmit_empties_input_once_saved (lit "k1") 1700000000002
                (Local.mkForm (lit " milk") true) Sample.two) as T.
  cbv zeta in T. destruct T as (_ & T).
  exact (proj2 (T H) QuotaExceededError).
Defined.

Lemma remote_return_shows_list_witness :
  Remote.handle Sample.empty_list (Remote.Toggle (lit "1") true)
                (Sample.world0 [Sample.ra])
  = (Normal tt,
     snd (Remote.handle Sample.empty_list (Remote.Toggle (lit "1") true)
                        (Sample.world0 [Sample.ra])))
  /\ exists res l,
       Sample.empty_list (Remote.GET (lit "/todos")) tt = (Normal res, tt)
       /\ Remote.json res = Normal (Remote.PItems l)
       /\ Remote.shows
            (snd (Remote.handle Sample.empty_list
                    (Remote.Toggle (lit "1") true)
                    (Sample.world0 [Sample.ra]))) l
       /\ Remote.requests
            (snd (Remote.handle Sample.empty_list
                    (Remote.Toggle (lit "1") true)
                    (Sample.world0 [Sample.ra])))
          = [Remote.PUT (Remote.todo_url (lit "1"))
               (Remote.is_completed_body true);
             Remote.GET (lit "/todos")].
Proof.
  assert (H : Remote.handle Sample.empty_list (Remote.Toggle (lit "1") true)
                (Sample.world0 [Sample.ra])
              = (Normal tt,
                 snd (Remote.handle Sample.empty_list
                        (Remote.Toggle (lit "1") true)
                        (Sample.world0 [Sample.ra])))) by reflexivity.
  split; [exact H|].
  destruct (@remote_return_shows_list unit Sample.empty_list
              (Remote.Toggle (lit "1") true) (Sample.world0 [Sample.ra]) _ H)
    as [(txt & Ht & _)|T]; [discriminate Ht|].
  cbv zeta in T. destruct T as (res & l & H0 & _ & _ & Hj & Hs & _ & Hr).
  exists res, l. split; [exact H0|]. split; [exact Hj|].
  split; [exact Hs|exact Hr].
Defined.

Lemma remote_failure_witness :
  Sample.not_found (Remote.DELETE (Remote.todo_url (lit "1")))
                   (Remote.srv (Sample.world0 [Sample.ra]))
  = (Normal (Remote.mkResponse 404 false (lit "Not Found")
               (Normal (Remote.POther (Some (lit "no such todo")) false))), tt)
  /\ Remote.deleteTodo Sample.not_found (lit "1") (Sample.world0 [Sample.ra])
     = (Throw (Error (lit "no such todo")),
        Remote.mkWorld (Some [Sample.ra]) tt
          [Remote.DELETE (Remote.todo_url (lit "1"))]
          (mkDom [] Hidden []) 0 Remote.IsNull (fun _ => 0)).
Proof.
  assert (H : Sample.not_found (Remote.DELETE (Remote.todo_url (lit "1")))
                (Remote.srv (Sample.world0 [Sample.ra]))
              = (Normal (Remote.mkResponse 404 false (lit "Not Found")
                   (Normal (Remote.POther (Some (lit "no such todo")) false))),
                 tt)) by reflexivity.
  split; [exact H|].
  pose proof (@remote_failure_changes_nothing unit Sample.not_found
                (Remote.DELETE (Remote.todo_url (lit "1")))
                (Sample.world0 [Sample.ra]) _ _ H
                ltac:(discriminate) eq_refl) as T.
  cbv zeta in T. destruct T as (_ & T & _).
  exact (T (lit "1") eq_refl).
Defined.

Lemma remote_no_content_witness :
  Sample.no_content (Remote.GET (lit "/todos"))
                    (Remote.srv (Sample.world0 [Sample.ra]))
  = (Normal (Remote.mkResponse 204 true (lit "No Content") (Throw SyntaxError)),
     tt)
  /\ Remote.todos
       (snd (Remote.fetchTodos Sample.no_content (Sample.world0 [Sample.ra])))
     = None.
Proof.
  assert (H : Sample.no_content (Remote.GET (lit "/todos"))
                (Remote.srv (Sample.world0 [Sample.ra]))
              = (Normal (Remote.mkResponse 204 true (lit "No Content")
                           (Throw SyntaxError)), tt)) by reflexivity.
  split; [exact H|].
  exact (proj1 (proj2 (remote_no_content_list Sample.no_content
                         (Sample.world0 [Sample.ra]) H eq_refl))).
Defined.

Lemma request_bodies_witness :
  trim (lit " milk ") <> []
  /\ exists rest,
       Remote.requests
         (snd (Remote.addTodo Sample.empty_list (lit " milk ")
                 (Sample.world0 [])))
       = Remote.requests (Sample.world0 [])
         ++ Remote.POST (lit "/todos")
              (Remote.content_body (trim (lit " milk ")))
         :: rest.
Proof.
  assert (H : trim (lit " milk ") <> []) by discriminate.
  split; [exact H|].
  exact (proj2 (proj2 (request_bodies_parse_back Sample.empty_list
                         (lit " milk ") true (Sample.world0 []))) H).
Defined.

Lemma remote_clear_rejected_witness :
  Remote.todos (Sample.world0 [Sample.ra; Sample.rb])
  = Some [Sample.ra; Sample.rb]
  /\ (exists e,
        In (Throw e)
           (fst (Remote.all_api Sample.not_found
                   (map (fun t => Remote.DELETE (Remote.todo_url (Remote.id t)))
                        (filter (fun t => Remote.is_completed t)
                                [Sample.ra; Sample.rb]))
                   (Sample.world0 [Sample.ra; Sample.rb]))))
  /\ Remote.requests
       (snd (Remote.clearCompleted Sample.not_found
               (Sample.world0 [Sample.ra; Sample.rb])))
     = [Remote.DELETE (Remote.todo_url (lit "2"))]
  /\ Remote.todos
       (snd (Remote.clearCompleted Sample.not_found
               (Sample.world0 [Sample.ra; Sample.rb])))
     = Some [Sample.ra; Sample.rb].
Proof.
  assert (H1 : Remote.todos (Sample.world0 [Sample.ra; Sample.rb])
               = Some [Sample.ra; Sample.rb]) by reflexivity.
  assert (H2 : exists e,
             In (Throw e)
                (fst (Remote.all_api Sample.not_found
                   (map (fun t => Remote.DELETE (Remote.todo_url (Remote.id t)))
                        (filter (fun t => Remote.is_completed t)
                                [Sample.ra; Sample.rb]))
                   (Sample.world0 [Sample.ra; Sample.rb])))).
  { exists (Error (lit "no such todo")). left. reflexivity. }
  split; [exact H1|]. split; [exact H2|].
  pose proof (@remote_clear_rejected unit Sample.not_found
                (Sample.world0 [Sample.ra; Sample.rb])
                [Sample.ra; Sample.rb] H1) as T.
  cbv zeta in T. destruct (T H2) as (_ & _ & Hq & Ht & _).
  split; [exact Hq|exact Ht].
Defined.


(** A refusal whose body is null: reading [err.error] throws a TypeError,
    and the re-fetch is not done. *)
Example delete_refused_with_null_body :
  Remote.deleteTodo Sample.null_body (lit "1") (Sample.world0 [Sample.ra])
  = (Throw TypeError,
     Remote.mkWorld (Some [Sample.ra]) tt
       [Remote.DELETE (Remote.todo_url (lit "1"))]
       (mkDom [] Hidden []) 0 Remote.IsNull (fun _ => 0)).
Proof. reflexivity. Qed.

(** A list answered as an object that is not an array: the list of the
    document is emptied, the placeholder hidden, and calling
    [todos.forEach] throws a TypeError. *)
Example fetch_answered_with_object :
  Remote.fetchTodos Sample.object_body (Sample.world0 [Sample.ra])
  = (Throw TypeError,
     Remote.mkWorld None tt [Remote.GET (lit "/todos")]
       (mkDom [] Hidden []) 0 (Remote.NotArray false) (fun _ => 0)).
Proof. reflexivity. Qed.

(** Two completed items, both DELETE calls refused, the second refusal
    arriving first: [clearCompleted] throws the error of the second. *)
Example clear_second_refusal_first :
  fst (Remote.clearCompleted Sample.not_found_url
         (Sample.world1 [Sample.rb; Remote.mkTodo (lit "3") (lit "c") true]))
  = Throw (Error (Remote.todo_url (lit "3")))
  /\ fst (Remote.clearCompleted Sample.not_found_url
            (Sample.world0 [Sample.rb; Remote.mkTodo (lit "3") (lit "c") true]))
     = Throw (Error (Remote.todo_url (lit "2"))).
Proof. split; reflexivity. Qed.

(** A refused write of the local program: the item is in memory, and
    neither in the store nor in the document. *)
Example add_refused_by_store :
  LocalQuota.handle (Some QuotaExceededError)
    (Local.Add (lit "k1") 1700000000002 (lit "milk")) Sample.two_drawn
  = (Throw QuotaExceededError,
     Local.set_todos
       (Local.mkTodo (lit "k1") (lit "milk") false 1700000000002
        :: [Sample.a; Sample.b])
       Sample.two_drawn).
Proof. reflexivity. Qed.

(* ================================================================== *)
(** * Operations undone and repeated *)
(* ================================================================== *)

Lemma assign_completed_twice (i : jsstring) (c c' : bool)
    (l : list Local.todo) :
  Local.assign_completed i c' (Local.assign_completed i c l)
  = Local.assign_completed i c' l.
Proof.
  induction l as [|x l IH]; [reflexivity|]. cbn [Local.assign_completed].
  destruct (str_eqb (Local.id x) i) eqn:E; cbn [Local.assign_completed Local.id
    Local.text Local.createdAt]; rewrite E; [reflexivity|].
  rewrite IH. reflexivity.
Qed.

Lemma assign_completed_same (i : jsstring) (l : list Local.todo)
    (t : Local.todo) :
  find (fun x => str_eqb (Local.id x) i) l = Some t ->
  Local.assign_completed i (Local.completed t) l = l.
Proof.
  induction l as [|x l IH]; [discriminate|]. cbn [find Local.assign_completed].
  destruct (str_eqb (Local.id x) i).
  - intros H; injection H as ->. destruct t; reflexivity.
  - intros H. rewrite (IH H). reflexivity.
Qed.

(** X17. Toggling an item to a value and then to another leaves the
    collection as one toggle to the last value does; in particular
    toggling twice to the same value is as toggling once, and toggling an
    item and then toggling it back to the flag it had gives the collection
    back. *)
Theorem toggle_last_value_wins (i : jsstring) (c c' : bool)
    (st : Local.state) :
  Local.todos (Local.toggleTodo i c' (Local.toggleTodo i c st))
  = Local.todos (Local.toggleTodo i c' st)
  /\ forall t,
       find (fun x => str_eqb (Local.id x) i) (Local.todos st) = Some t ->
       Local.todos (Local.toggleTodo i (Local.completed t)
                      (Local.toggleTodo i c st))
       = Local.todos st.
Proof.
  assert (H : forall b,
             Local.todos (Local.toggleTodo i b (Local.toggleTodo i c st))
             = Local.todos (Local.toggleTodo i b st)).
  { intros b.
    destruct (find (fun x => str_eqb (Local.id x) i) (Local.todos st))
      as [t|] eqn:Hf.
    - unfold Local.toggleTodo. rewrite Hf, todos_render_save.
      cbn [Local.set_todos Local.todos].
      rewrite (@find_after_assign i c _ t Hf), !todos_render_save.
      cbn [Local.set_todos Local.todos]. apply assign_completed_twice.
    - assert (He : Local.toggleTodo i c st = st)
        by (unfold Local.toggleTodo; rewrite Hf; reflexivity).
      rewrite He. reflexivity. }
  split; [apply H|]. intros t Hf. rewrite H.
  unfold Local.toggleTodo. rewrite Hf, todos_render_save.
  cbn [Local.set_todos Local.todos]. apply assign_completed_same, Hf.
Qed.

(** X18. Adding an item under an identifier that is not in use and then
    deleting that identifier gives the collection back. *)
Theorem add_then_delete_restores (fresh : jsstring) (now : Z)
    (txt : jsstring) (st : Local.state) :
  ~ In fresh (map Local.id (Local.todos st)) ->
  Local.todos (Local.deleteTodo fresh (Local.addTodo fresh now txt st))
  = Local.todos st.
Proof.
  intros H. unfold Local.deleteTodo. rewrite todos_render_save.
  cbn [Local.set_todos Local.todos]. unfold Local.addTodo. cbv zeta.
  destruct (negb (truthy (trim txt))).
  - apply delete_absent, H.
  - rewrite todos_render_save. cbn [Local.set_todos Local.todos filter Local.id].
    rewrite str_eqb_refl. cbn [negb]. apply delete_absent, H.
Qed.

Lemma toggle_last_value_wins_witness :
  find (fun x => str_eqb (Local.id x) (lit "a")) (Local.todos Sample.two)
  = Some Sample.a
  /\ Local.todos (Local.toggleTodo (lit "a") (Local.completed Sample.a)
                    (Local.toggleTodo (lit "a") true Sample.two))
     = Local.todos Sample.two.
Proof.
  assert (H : find (fun x => str_eqb (Local.id x) (lit "a"))
                   (Local.todos Sample.two) = Some Sample.a) by reflexivity.
  split; [exact H|].
  exact (proj2 (toggle_last_value_wins (lit "a") true true Sample.two)
           Sample.a H).
Defined.

Lemma add_then_delete_restores_witness :
  ~ In (lit "k1") (map Local.id (Local.todos Sample.two))
  /\ Local.todos (Local.deleteTodo (lit "k1")
                    (Local.addTodo (lit "k1") 1700000000002 (lit "milk")
                       Sample.two))
     = Local.todos Sample.two.
Proof.
  assert (H : ~ In (lit "k1") (map Local.id (Local.todos Sample.two))).
  { simpl. intros [H|[H|[]]]; discriminate H. }
  split; [exact H|].
  exact (add_then_delete_restores (lit "k1") 1700000000002 (lit "milk")
           Sample.two H).
Defined.
